(** * Room identification and smoothing for mobile motes (SupMat_A1_A2.py)

    A shallow embedding of the two algorithms of [SupMat_A1_A2.py]:
    [AllData.identify_location] (weighted identification of the closest
    stationary mote) and [AllData.smooth_location] (rewriting of ABAA / AABA
    patterns), together with the classes they read from and the smoothing
    loop of the main program.

    Python integers are [Z]; Python floats are the IEEE 754 binary64 numbers
    of [PrimFloat]; exceptions are an error type. *)

From Stdlib Require Import ZArith Floats Lia.
From stdpp Require Import gmap list fin_maps strings pretty sorting.

Set Warnings "-inexact-float".
Local Open Scope Z_scope.

(** ** Exceptions and the error monad *)

Inductive exn : Type :=
| KeyError (k : Z)
| ZeroDivisionError
| OverflowError
| UnboundLocalError.

Inductive result (A : Type) : Type :=
| Ok (a : A)
| Raise (e : exn).
Arguments Ok {A} a.
Arguments Raise {A} e.

#[global] Instance result_ret : MRet result := fun _ a => Ok a.
#[global] Instance result_bind : MBind result := fun _ _ k m =>
  match m with
  | Ok a => k a
  | Raise e => Raise e
  end.

(** The exceptions of the rest of the program: a [TypeError] of the string
    formatting, a [NameError], the [SystemExit] of [sys.exit()], or one of
    the exceptions above. *)
Inductive pyexc : Type :=
| TypeError
| NameError
| SystemExit
| Exn (e : exn).

(** The outcome of the code that can stop in one of these ways. *)
Inductive outcome (A : Type) : Type :=
| Done (a : A)
| Stop (e : pyexc).
Arguments Done {A} a.
Arguments Stop {A} e.

#[global] Instance outcome_ret : MRet outcome := fun _ a => Done a.
#[global] Instance outcome_bind : MBind outcome := fun _ _ k m =>
  match m with
  | Done a => k a
  | Stop e => Stop e
  end.

Definition lift {A : Type} (m : result A) : outcome A :=
  match m with
  | Ok a => Done a
  | Raise e => Stop (Exn e)
  end.

(** ** Python numbers *)

(** [float(z)]: the nearest binary64 number, ties to even; an integer too
    large for a float raises [OverflowError]. *)
Definition py_float (z : Z) : result float :=
  let f := SF2Prim (binary_normalize prec emax z 0 false) in
  if is_infinity f then Raise OverflowError else Ok f.

(** [x / y] on floats raises [ZeroDivisionError] when [y == 0.0]. *)
Definition float_div (x y : float) : result float :=
  if (y =? 0)%float then Raise ZeroDivisionError else Ok (x / y)%float.

(** The local variable [weight] of [identify_location] is assigned an
    integer in the first loop and a float in the second. *)
Inductive pynum : Type :=
| PyInt (z : Z)
| PyFloat (f : float).

(** [x * n] for a float [x]: an integer operand is converted first. *)
Definition float_mul_num (x : float) (n : pynum) : result float :=
  match n with
  | PyInt z => f ← py_float z; Ok (x * f)%float
  | PyFloat f => Ok (x * f)%float
  end.

(** Reading a local variable that may not have been assigned yet. *)
Definition load {A : Type} (v : option A) : result A :=
  match v with
  | Some a => Ok a
  | None => Raise UnboundLocalError
  end.

(** [range(lo, hi)] *)
Definition range (lo hi : Z) : list Z :=
  map (fun k => lo + Z.of_nat k) (seq 0 (Z.to_nat (hi - lo))).

(** ** Dictionaries that are iterated over

    A dictionary with integer keys whose iteration order matters is kept as
    the list of its items in insertion order. The order in which the
    interpreter enumerates the keys is a function of that insertion history;
    it is the parameter [order] of [AllData.identify_location] below. *)
Module Dict.

Definition t (V : Type) : Type := list (Z * V).

Fixpoint get {V : Type} (k : Z) (d : t V) : option V :=
  match d with
  | [] => None
  | (k', v) :: d' => if Z.eqb k k' then Some v else get k d'
  end.

(** [k in d] *)
Definition mem {V : Type} (k : Z) (d : t V) : bool :=
  match get k d with Some _ => true | None => false end.

(** [d[k]] *)
Definition getitem {V : Type} (k : Z) (d : t V) : result V :=
  match get k d with
  | Some v => Ok v
  | None => Raise (KeyError k)
  end.

(** [d[k] = v] *)
Fixpoint set {V : Type} (k : Z) (v : V) (d : t V) : t V :=
  match d with
  | [] => [(k, v)]
  | (k', v') :: d' => if Z.eqb k k' then (k, v) :: d' else (k', v') :: set k v d'
  end.

(** The keys in insertion order. *)
Definition keys {V : Type} (d : t V) : list Z := map fst d.

End Dict.

(** [m[k]] for a dictionary that is only looked up. *)
Definition getitem {V : Type} (k : Z) (m : gmap Z V) : result V :=
  match m !! k with
  | Some v => Ok v
  | None => Raise (KeyError k)
  end.

(** ** class Signal_mob, class Signal_sta *)

Record Signal_mob : Type := {
  mob_global_time : Z;
  mob_receiver_id : Z;
  mob_sender_id : Z
}.

(** [__init__] stores [rssi = convert_reading_to_rssi(int(signal_strength))]
    and [power = convert_rssi_to_power(rssi)], that is
    [10.0 ** (float(rssi) / 10.0)]; the algorithms below only read the stored
    fields. *)
Record Signal_sta : Type := {
  sta_global_time : Z;
  sta_receiver_id : Z;
  sta_sender_id : Z;
  sta_rssi : Z;
  sta_power : float
}.

Definition convert_reading_to_rssi (reading : Z) : Z :=
  if reading <? 128 then reading - 45
  else -1 * (Z.lxor (reading - 1) 0xFF) - 45.

(** ** class Signals *)
Module Signals.

Record t : Type := {
  global_time : Z;
  receiver_id : Z;
  mobile : list Signal_mob;
  stationary : list Signal_sta
}.

Definition return_neighbor_ids (self : t) : list Z :=
  fold_left (fun neighbors n => neighbors ++ [mob_sender_id n]) (mobile self) [].

Definition return_nearest_rooms (self : t) : Dict.t (float * Z) :=
  fold_left (fun rooms r => Dict.set (sta_sender_id r) (sta_power r, sta_rssi r) rooms)
            (stationary self) [].

(** A signal object, mobile or stationary ([TYPE]). *)
Inductive signal : Type :=
| Mob (s : Signal_mob)
| Sta (s : Signal_sta).

Definition signal_receiver_id (sg : signal) : Z :=
  match sg with Mob s => mob_receiver_id s | Sta s => sta_receiver_id s end.

Definition signal_global_time (sg : signal) : Z :=
  match sg with Mob s => mob_global_time s | Sta s => sta_global_time s end.

(** [add_signal] for a signal object that was just constructed, as at its
    two call sites: [signal in self.mobile] compares objects by identity (the
    classes define no equality), so a new object is in no list and is
    appended. The messages before [sys.exit()] go to the standard output. *)
Definition add_signal (self : t) (sg : signal) : outcome t :=
  if decide (receiver_id self <> signal_receiver_id sg) then Stop SystemExit
  else if decide (global_time self <> signal_global_time sg) then Stop SystemExit
  else
    match sg with
    | Mob s =>
      Done {| global_time := global_time self; receiver_id := receiver_id self;
              mobile := mobile self ++ [s]; stationary := stationary self |}
    | Sta s =>
      Done {| global_time := global_time self; receiver_id := receiver_id self;
              mobile := mobile self; stationary := stationary self ++ [s] |}
    end.

End Signals.

(** ** class Receiver_sequence *)
Module Receiver_sequence.

Record t : Type := {
  receiver_id : Z;
  sequence : gmap Z Signals.t
}.

Definition return_neighbor_ids (self : t) (t_ : Z) : list Z :=
  match sequence self !! t_ with
  | Some s => Signals.return_neighbor_ids s
  | None => []
  end.

Definition return_nearest_rooms (self : t) (t_ : Z) : Dict.t (float * Z) :=
  match sequence self !! t_ with
  | Some s => Signals.return_nearest_rooms s
  | None => []
  end.

(** On a mismatch the second [print] reads [signal.receiver_id], and no
    variable [signal] exists there: a [NameError], before [sys.exit()]. *)
Definition add_signals (self : t) (signals : Signals.t) : outcome t :=
  if decide (receiver_id self <> Signals.receiver_id signals) then Stop NameError
  else
    Done {| receiver_id := receiver_id self;
            sequence := <[Signals.global_time signals := signals]> (sequence self) |}.

End Receiver_sequence.

(** ** Output *)

Fixpoint spaces (n : nat) : string :=
  match n with
  | O => EmptyString
  | S n' => String (Ascii.ascii_of_nat 32) (spaces n')
  end.

(** ['%6d' % n]: the decimal digits of [n], right-justified in six columns
    (and not cut when they are more). *)
Definition format_d6 (n : Z) : string :=
  let digits := pretty n in
  spaces (6 - String.length digits) +:+ digits.

Definition newline : string := String (Ascii.ascii_of_nat 10) EmptyString.

(** ['%6d%6d\n' % (t, r)] *)
Definition format_line (t_ r : Z) : string :=
  format_d6 t_ +:+ format_d6 r +:+ newline.

(** ** class AllData *)

(** What a room sequence holds: a room id, or [None] (which
    [smooth_location] can store, see [rewrite_rooms]). *)
Inductive value : Type :=
| VNone
| VInt (z : Z).

#[global] Instance value_eq_dec : EqDecision value.
Proof. solve_decision. Defined.

Module AllData.

Record t : Type := {
  sequences : gmap Z Receiver_sequence.t;   (* person id --> Sequence *)
  locations : gmap Z (gmap Z value)         (* person id --> t --> room id *)
}.

Definition init : t := {| sequences := ∅; locations := ∅ |}.

Definition add_sequence (self : t) (sequence : Receiver_sequence.t) : t :=
  {| sequences := <[Receiver_sequence.receiver_id sequence := sequence]> (sequences self);
     locations := <[Receiver_sequence.receiver_id sequence := ∅]> (locations self) |}.

(** *** identify_location *)

(** The power threshold (in mW), [3.16 * (10**-9)]; the power [10**-9] of
    two integers with a negative exponent is the float [1e-09]. *)
Definition THRESHOLD : float := (3.16 * 1e-9)%float.

Section identify_location.

(** The order in which a dictionary is enumerated, from its keys in
    insertion order. *)
Variable order : list Z -> list Z.

Definition iter {V : Type} (d : Dict.t V) : list Z := order (Dict.keys d).

(** Lines 83-88: the close mobile motes for all timestamps in [t_w_list]. *)
Fixpoint build_contacts (sequences : gmap Z Receiver_sequence.t) (i t_ : Z)
    (t_w_list : list (Z * Z)) (contacts : Dict.t (list Z)) : result (Dict.t (list Z)) :=
  match t_w_list with
  | [] => Ok contacts
  | t_w :: rest =>
    let t_cur := t_ + t_w.1 in
    s ← getitem i sequences;
    if decide (is_Some (Receiver_sequence.sequence s !! t_cur))
    then build_contacts sequences i t_ rest
           (Dict.set t_cur (i :: Receiver_sequence.return_neighbor_ids s t_cur) contacts)
    else build_contacts sequences i t_ rest contacts
  end.

(** Lines 94-96: [for t_w in t_w_list: if (t_cur - t_w[0]) == t: weight = t_w[1]] *)
Fixpoint scan_weight (t_ t_cur : Z) (t_w_list : list (Z * Z)) (weight : option Z)
    : option Z :=
  match t_w_list with
  | [] => weight
  | t_w :: rest =>
    scan_weight t_ t_cur rest (if t_cur - t_w.1 =? t_ then Some t_w.2 else weight)
  end.

(** Lines 93-97: the weighted number of data points. *)
Fixpoint count_datapoints (t_ : Z) (t_w_list : list (Z * Z)) (contacts : Dict.t (list Z))
    (t_curs : list Z) (weight : option Z) (w_number_datapoints : Z)
    : result (option Z * Z) :=
  match t_curs with
  | [] => Ok (weight, w_number_datapoints)
  | t_cur :: rest =>
    let weight := scan_weight t_ t_cur t_w_list weight in
    c ← Dict.getitem t_cur contacts;
    wt ← load weight;
    count_datapoints t_ t_w_list contacts rest weight
      (w_number_datapoints + Z.of_nat (length c) * wt)
  end.

(** Lines 102-104: as [scan_weight], with [weight = float(t_w[1])]. *)
Fixpoint scan_weight_float (t_ t_cur : Z) (t_w_list : list (Z * Z))
    (weight : option pynum) : result (option pynum) :=
  match t_w_list with
  | [] => Ok weight
  | t_w :: rest =>
    if t_cur - t_w.1 =? t_
    then f ← py_float t_w.2; scan_weight_float t_ t_cur rest (Some (PyFloat f))
    else scan_weight_float t_ t_cur rest weight
  end.

(** [rooms[r][0] * weight / float(w_number_datapoints)] *)
Definition weighted_power (p : float) (weight : option pynum) (w_number_datapoints : Z)
    : result float :=
  wt ← load weight;
  x ← float_mul_num p wt;
  fw ← py_float w_number_datapoints;
  float_div x fw.

(** Lines 108-114: [for r in rooms.keys()], accumulating into [data[t_cur]]. *)
Fixpoint add_rooms (rooms : Dict.t (float * Z)) (rs : list Z) (weight : option pynum)
    (w_number_datapoints : Z) (cell : Dict.t float) : result (Dict.t float) :=
  match rs with
  | [] => Ok cell
  | r :: rest =>
    if Dict.mem r cell then
      old ← Dict.getitem r cell;
      pr ← Dict.getitem r rooms;
      x ← weighted_power pr.1 weight w_number_datapoints;
      add_rooms rooms rest weight w_number_datapoints (Dict.set r (old + x)%float cell)
    else
      pr ← Dict.getitem r rooms;
      x ← weighted_power pr.1 weight w_number_datapoints;
      add_rooms rooms rest weight w_number_datapoints (Dict.set r x cell)
  end.

(** Lines 106-114: [for c in contacts[t_cur]] *)
Fixpoint add_contacts (sequences : gmap Z Receiver_sequence.t) (t_cur : Z) (cs : list Z)
    (weight : option pynum) (w_number_datapoints : Z) (cell : Dict.t float)
    : result (Dict.t float) :=
  match cs with
  | [] => Ok cell
  | c :: rest =>
    s ← getitem c sequences;
    let rooms := Receiver_sequence.return_nearest_rooms s t_cur in
    cell' ← add_rooms rooms (iter rooms) weight w_number_datapoints cell;
    add_contacts sequences t_cur rest weight w_number_datapoints cell'
  end.

(** Lines 99-114: the weighted signal strength per timestamp and stationary
    mote. [data[t_cur]] starts as [{}] and is filled in place. *)
Fixpoint build_data (sequences : gmap Z Receiver_sequence.t) (t_ : Z)
    (t_w_list : list (Z * Z)) (contacts : Dict.t (list Z)) (w_number_datapoints : Z)
    (t_curs : list Z) (weight : option pynum) (data : Dict.t (Dict.t float))
    : result (Dict.t (Dict.t float)) :=
  match t_curs with
  | [] => Ok data
  | t_cur :: rest =>
    let data := Dict.set t_cur [] data in
    weight ← scan_weight_float t_ t_cur t_w_list weight;
    cs ← Dict.getitem t_cur contacts;
    cell ← add_contacts sequences t_cur cs weight w_number_datapoints [];
    build_data sequences t_ t_w_list contacts w_number_datapoints rest weight
      (Dict.set t_cur cell data)
  end.

(** Lines 119-122: [for r in data[t_cur]] *)
Fixpoint sum_cell (cell : Dict.t float) (rs : list Z) (signals : Dict.t float)
    : result (Dict.t float) :=
  match rs with
  | [] => Ok signals
  | r :: rest =>
    let signals := if Dict.mem r signals then signals else Dict.set r 0%float signals in
    s ← Dict.getitem r signals;
    x ← Dict.getitem r cell;
    sum_cell cell rest (Dict.set r (s + x)%float signals)
  end.

(** Lines 117-122: sum up partial signal strengths. *)
Fixpoint sum_signals (data : Dict.t (Dict.t float)) (t_curs : list Z)
    (signals : Dict.t float) : result (Dict.t float) :=
  match t_curs with
  | [] => Ok signals
  | t_cur :: rest =>
    cell ← Dict.getitem t_cur data;
    signals' ← sum_cell cell (iter cell) signals;
    sum_signals data rest signals'
  end.

(** Lines 125-130: find the strongest signal. [signals[r] > max_signal] *)
Fixpoint find_strongest (signals : Dict.t float) (rs : list Z) (max_id : Z)
    (max_signal : float) : result (Z * float) :=
  match rs with
  | [] => Ok (max_id, max_signal)
  | r :: rest =>
    s ← Dict.getitem r signals;
    if (max_signal <? s)%float
    then find_strongest signals rest r s
    else find_strongest signals rest max_id max_signal
  end.

(** Lines 83-122: the aggregated signal strength per stationary mote. *)
Definition aggregate_signals (sequences : gmap Z Receiver_sequence.t) (i t_ : Z)
    (t_w_list : list (Z * Z)) : result (Dict.t float) :=
  contacts ← build_contacts sequences i t_ t_w_list [];
  '(weight, w_number_datapoints) ←
     count_datapoints t_ t_w_list contacts (iter contacts) None 0;
  data ← build_data sequences t_ t_w_list contacts w_number_datapoints
           (iter contacts) (PyInt <$> weight) [];
  sum_signals data (iter data) [].

(** Lines 132-142: threshold, store and return. (The [print] for room
    10023 only writes to the standard output.) *)
Definition store_location (self : t) (i t_ : Z) (max_id : Z) : t :=
  let locations := if decide (is_Some (locations self !! i)) then locations self
                   else <[i := ∅]> (locations self) in
  {| sequences := sequences self;
     locations := <[i := <[t_ := VInt max_id]> (locations !!! i)]> locations |}.

(** [identify_location] with the constant [THRESHOLD] as a parameter. *)
Definition identify_location_at (threshold : float) (self : t) (i t_ : Z)
    (t_w_list : list (Z * Z)) : result (Z * t) :=
  signals ← aggregate_signals (sequences self) i t_ t_w_list;
  '(max_id, max_signal) ← find_strongest signals (iter signals) 0 0%float;
  let max_id := if (max_signal <? threshold)%float then 0 else max_id in
  Ok (max_id, store_location self i t_ max_id).

Definition identify_location (self : t) (i t_ : Z) (t_w_list : list (Z * Z))
    : result (Z * t) :=
  identify_location_at THRESHOLD self i t_ t_w_list.

(** The first loop of the main program over a range of timestamps,
    [for t in ...: data.identify_location(i, t, t_w_list)]. *)
Fixpoint identify_all (threshold : float) (self : t) (i : Z) (ts : list Z)
    (t_w_list : list (Z * Z)) : result t :=
  match ts with
  | [] => Ok self
  | t_ :: rest =>
    '(_, self') ← identify_location_at threshold self i t_ t_w_list;
    identify_all threshold self' i rest t_w_list
  end.

End identify_location.

(** *** smooth_location *)

(** Lines 165-191: the walk over one pattern [p], from position [t_add] on
    ([p_rest] is [p[t_add:]]). [Ok None] stands for [flag = True];
    [Ok (Some r1)] for a completed walk. *)
Fixpoint walk (locations : gmap Z (gmap Z value)) (i t_ : Z) (p_rest : list bool)
    (t_add : Z) (r1 r2 : value) : result (option value) :=
  match p_rest with
  | [] => Ok (Some r1)
  | b :: rest =>
    loc ← getitem i locations;
    match loc !! (t_ + t_add) with
    | None => Ok None
    | Some room =>
      if b then
        let r1 := if decide (r1 = VNone) then room else r1 in
        if decide (r1 = room) then walk locations i t_ rest (t_add + 1) r1 r2
        else Ok None
      else
        let r2 := if decide (r2 = VNone) then room else r2 in
        if decide (r2 = r1) then Ok None
        else if decide (r2 = room) then walk locations i t_ rest (t_add + 1) r1 r2
        else Ok None
    end
  end.

(** Lines 196-198: change room B to room A. *)
Fixpoint rewrite_rooms (locations : gmap Z (gmap Z value)) (i t_ : Z)
    (p_rest : list bool) (t_add : Z) (r1 : value) : result (gmap Z (gmap Z value)) :=
  match p_rest with
  | [] => Ok locations
  | b :: rest =>
    if b then rewrite_rooms locations i t_ rest (t_add + 1) r1
    else
      loc ← getitem i locations;
      rewrite_rooms (<[i := <[t_ + t_add := r1]> loc]> locations) i t_ rest (t_add + 1) r1
  end.

Fixpoint smooth_location (self : t) (i t_ : Z) (patterns : list (list bool))
    : result (Z * t) :=
  match patterns with
  | [] => Ok (0, self)
  | p :: rest =>
    m ← walk (locations self) i t_ p 0 VNone VNone;
    match m with
    | None => smooth_location self i t_ rest
    | Some r1 =>
      locations' ← rewrite_rooms (locations self) i t_ p 0 r1;
      Ok (1, {| sequences := sequences self; locations := locations' |})
    end
  end.

(** *** write_to_files *)

(** [sorted(d.keys())] *)
Definition sorted_keys (seq : gmap Z value) : list Z :=
  merge_sort Z.le (elements (dom seq)).

(** Lines 63-67: the lines written to [output] so far, and the exception
    that ends the loop, if any. *)
Fixpoint write_timeline (seq : gmap Z value) (timeline : list Z) (output : list string)
    : list string * option pyexc :=
  match timeline with
  | [] => (output, None)
  | t_ :: rest =>
    match seq !! t_ with
    | None => (output, Some (Exn (KeyError t_)))
    | Some r =>
      if decide (r = VInt 0) then write_timeline seq rest output
      else
        match r with
        | VInt z => write_timeline seq rest (output ++ [format_line t_ z])
        | VNone => (output, Some TypeError)
        end
    end
  end.



End AllData.

(** ** read_person_to_person_file *)

(** The three integers read from a line of a raw mote file:
    [int(data[ID_POS])], [int(data[STRENGTH_POS])] and [int(data[T_POS])]. *)
Record line : Type := {
  cur_id : Z;
  cur_strength : Z;
  cur_t : Z
}.

Section read_person_to_person_file.

(** [convert_rssi_to_power], that is [10.0 ** (float(rssi) / 10.0)], a power
    of the C library: a parameter. *)
Variable convert_rssi_to_power : Z -> result float.

(** The order in which a dictionary is enumerated, as above. *)
Variable order : list Z -> list Z.

(** [Signal_sta(global_time, receiver_id, sender_id, signal_strength)] *)
Definition new_Signal_sta (global_time receiver_id sender_id signal_strength : Z)
    : outcome Signal_sta :=
  let rssi := convert_reading_to_rssi signal_strength in
  power ← lift (convert_rssi_to_power rssi);
  Done {| sta_global_time := global_time; sta_receiver_id := receiver_id;
          sta_sender_id := sender_id; sta_rssi := rssi; sta_power := power |}.

(** Lines 372-390, from the integers of each line on. *)
Fixpoint read_lines (receiver_id : Z) (lines : list line)
    (Timeline_of_Signals : Dict.t Signals.t) : outcome (Dict.t Signals.t) :=
  match lines with
  | [] => Done Timeline_of_Signals
  | l :: rest =>
    let timeline :=
      if Dict.mem (cur_t l) Timeline_of_Signals then Timeline_of_Signals
      else Dict.set (cur_t l)
             {| Signals.global_time := cur_t l; Signals.receiver_id := receiver_id;
                Signals.mobile := []; Signals.stationary := [] |}
             Timeline_of_Signals in
    snapshot ← lift (Dict.getitem (cur_t l) timeline);
    sg ← (if cur_id l <? 10000
          then Done (Signals.Mob {| mob_global_time := cur_t l;
                                    mob_receiver_id := receiver_id;
                                    mob_sender_id := cur_id l |})
          else s ← new_Signal_sta (cur_t l) receiver_id (cur_id l) (cur_strength l);
               Done (Signals.Sta s));
    snapshot' ← Signals.add_signal snapshot sg;
    read_lines receiver_id rest (Dict.set (cur_t l) snapshot' timeline)
  end.

(** Lines 393-395: [for t in Timeline_of_Signals: seq.add_signals(...)]. *)
Fixpoint add_all (seq : Receiver_sequence.t) (Timeline_of_Signals : Dict.t Signals.t)
    (ts : list Z) : outcome Receiver_sequence.t :=
  match ts with
  | [] => Done seq
  | t_ :: rest =>
    signals ← lift (Dict.getitem t_ Timeline_of_Signals);
    seq' ← Receiver_sequence.add_signals seq signals;
    add_all seq' Timeline_of_Signals rest
  end.

(** [read_person_to_person_file], from the integers of the lines on. *)
Definition read_person_to_person_file (receiver_id : Z) (lines : list line)
    : outcome Receiver_sequence.t :=
  timeline ← read_lines receiver_id lines [];
  add_all {| Receiver_sequence.receiver_id := receiver_id;
             Receiver_sequence.sequence := ∅ |}
          timeline (order (Dict.keys timeline)).

End read_person_to_person_file.

(** ** The smoothing loop of the main program *)

(** [for t in ...: cnt += data.smooth_location(i, t, patterns)] *)
Fixpoint smooth_pass (data : AllData.t) (i : Z) (ts : list Z)
    (patterns : list (list bool)) (cnt : Z) : result (Z * AllData.t) :=
  match ts with
  | [] => Ok (cnt, data)
  | t_ :: rest =>
    '(c, data') ← AllData.smooth_location data i t_ patterns;
    smooth_pass data' i rest patterns (cnt + c)
  end.

(** [while cnt > 0], entered with [cnt = 1]; [None] when the fuel runs out
    before the loop ends. *)
Fixpoint smooth_loop (fuel : nat) (data : AllData.t) (i : Z) (ts : list Z)
    (patterns : list (list bool)) : option (result AllData.t) :=
  match fuel with
  | O => None
  | S fuel' =>
    match smooth_pass data i ts patterns 0 with
    | Raise e => Some (Raise e)
    | Ok (cnt, data') =>
      if 0 <? cnt then smooth_loop fuel' data' i ts patterns
      else Some (Ok data')
    end
  end.

(** ** Definitions used to state the properties *)

(** The room sequence after lines 196-198, as a function of the sequence. *)
Fixpoint rewrite_seq (seq : gmap Z value) (t_ : Z) (p_rest : list bool) (t_add : Z)
    (r1 : value) : gmap Z value :=
  match p_rest with
  | [] => seq
  | b :: rest =>
    rewrite_seq (if b then seq else <[t_ + t_add := r1]> seq) t_ rest (t_add + 1) r1
  end.

(** The two operations on the room sequences, and a call of either. *)
Inductive operation : Type :=
| Identify (i t_ : Z) (t_w_list : list (Z * Z))
| Smooth (i t_ : Z) (patterns : list (list bool)).

Definition call (order : list Z -> list Z) (op : operation) (self : AllData.t)
    : result (Z * AllData.t) :=
  match op with
  | Identify i t_ t_w_list => AllData.identify_location order self i t_ t_w_list
  | Smooth i t_ patterns => AllData.smooth_location self i t_ patterns
  end.

(** An alternation of a room sequence: a timestamp whose room differs from
    the room of the next timestamp. *)
Definition alt_at (seq : gmap Z value) (x : Z) : bool :=
  match seq !! x, seq !! (x + 1) with
  | Some v, Some w => bool_decide (v <> w)
  | _, _ => false
  end.

Definition alternations (seq : gmap Z value) : nat :=
  size (filter (fun x => alt_at seq x = true) (dom seq)).

(** A pattern that begins and ends with [True] and has a [False]. *)
Definition bracketed (p : list bool) : Prop :=
  head p = Some true /\ last p = Some true /\ false ∈ p.

(** A room sequence that holds room ids only, as [identify_location]
    stores them. *)
Definition rooms_only (seq : gmap Z value) : Prop :=
  map_Forall (fun _ v => v <> VNone) seq.

(** The values of the main program. *)
Definition main_range : list Z := range 600 3000.
Definition main_kernel : list (Z * Z) := [(-2, 1); (-1, 2); (0, 4); (1, 2); (2, 1)].
Definition main_patterns : list (list bool) :=
  [[true; false; true; true]; [true; true; false; true]].

(** [max_id], [max_signal] is the strongest signal of the rooms [rs]
    (enumerated in this order) with the signals [signals]: either no room has
    a signal above [0.0], or [max_id] is the first room of [rs] whose signal
    no other room exceeds. *)
Definition strongest (signals : Dict.t float) (rs : list Z) (start : float)
    (start_id max_id : Z) (max_signal : float) : Prop :=
  (max_id = start_id /\ max_signal = start /\
   forall r, r ∈ rs ->
     exists v, Dict.get r signals = Some v /\ (start <? v)%float = false) \/
  (exists pre post,
     rs = pre ++ max_id :: post /\
     Dict.get max_id signals = Some max_signal /\
     (start <? max_signal)%float = true /\
     (forall r, r ∈ pre ->
        exists v, Dict.get r signals = Some v /\ (max_signal <=? v)%float = false) /\
     (forall r, r ∈ post ->
        exists v, Dict.get r signals = Some v /\ (max_signal <? v)%float = false)).

(** The room sequence of receiver [j] (empty when it has none), and the
    number of its timestamps with a room other than 0, the ones that
    [write_to_files] writes. *)
Definition room_seq (self : AllData.t) (j : Z) : gmap Z value :=
  default ∅ (AllData.locations self !! j).

Definition assigned (seq : gmap Z value) : nat :=
  size (filter (fun kv : Z * value => kv.2 <> VInt 0) seq).

(** [s2] has the observations and the timestamps of [s1], and at every
    timestamp the room of [s1] or room 0. *)
Definition fewer_rooms (s2 s1 : AllData.t) : Prop :=
  AllData.sequences s2 = AllData.sequences s1 /\
  forall j,
    dom (room_seq s2 j) = dom (room_seq s1 j) /\
    forall x v, room_seq s2 j !! x = Some v -> v <> VInt 0 -> room_seq s1 j !! x = Some v.

(** ** Example states *)

(** Receiver 1 with rooms 5, 7, 5, 5 at the timestamps 600 .. 603. *)
Definition flicker_seq : gmap Z value :=
  {[600 := VInt 5; 601 := VInt 7; 602 := VInt 5; 603 := VInt 5]}.
Definition flicker_data : AllData.t :=
  {| AllData.sequences := ∅; AllData.locations := {[1 := flicker_seq]} |}.

(** Receiver 1 with room 5 at the timestamps 600 and 601. *)
Definition steady_data : AllData.t :=
  {| AllData.sequences := ∅;
     AllData.locations := {[1 := {[600 := VInt 5; 601 := VInt 5]}]} |}.

(** Receiver 1 with rooms at 600, 601 and 603, and none at 602. *)
Definition gap_seq : gmap Z value :=
  {[600 := VInt 5; 601 := VInt 7; 603 := VInt 5]}.
Definition gap_data : AllData.t :=
  {| AllData.sequences := ∅; AllData.locations := {[1 := gap_seq]} |}.

(** Receiver 1 with rooms 5, 7, 5, 5 at the timestamps 0 .. 3. *)
Definition abaa_seq : gmap Z value :=
  {[0 := VInt 5; 1 := VInt 7; 2 := VInt 5; 3 := VInt 5]}.
Definition abaa_data : AllData.t :=
  {| AllData.sequences := ∅; AllData.locations := {[1 := abaa_seq]} |}.

(** The scenario of receiver 1 at [t = 100]: its snapshot has the mobile
    mote 2 and the stationary mote 10050 at 5e-9 mW; the snapshot of mote 2
    has the stationary mote 10050 at 1e-9 mW. *)
Definition scenario_seq_1 : Receiver_sequence.t :=
  {| Receiver_sequence.receiver_id := 1;
     Receiver_sequence.sequence :=
       {[100 := {| Signals.global_time := 100; Signals.receiver_id := 1;
                   Signals.mobile :=
                     [{| mob_global_time := 100; mob_receiver_id := 1;
                         mob_sender_id := 2 |}];
                   Signals.stationary :=
                     [{| sta_global_time := 100; sta_receiver_id := 1;
                         sta_sender_id := 10050; sta_rssi := -83;
                         sta_power := 5e-9 |}] |}]} |}.

Definition scenario_seq_2 : Receiver_sequence.t :=
  {| Receiver_sequence.receiver_id := 2;
     Receiver_sequence.sequence :=
       {[100 := {| Signals.global_time := 100; Signals.receiver_id := 2;
                   Signals.mobile := [];
                   Signals.stationary :=
                     [{| sta_global_time := 100; sta_receiver_id := 2;
                         sta_sender_id := 10050; sta_rssi := -90;
                         sta_power := 1e-9 |}] |}]} |}.

Definition scenario_data : AllData.t :=
  AllData.add_sequence (AllData.add_sequence AllData.init scenario_seq_1) scenario_seq_2.

(** As [scenario_data], without the file of mote 2. *)
Definition lone_data : AllData.t := AllData.add_sequence AllData.init scenario_seq_1.

(** Receiver 3 alone, with the stationary mote 10050 at 1e-8 mW at
    [t = 100]. *)
Definition near_seq : Receiver_sequence.t :=
  {| Receiver_sequence.receiver_id := 3;
     Receiver_sequence.sequence :=
       {[100 := {| Signals.global_time := 100; Signals.receiver_id := 3;
                   Signals.mobile := [];
                   Signals.stationary :=
                     [{| sta_global_time := 100; sta_receiver_id := 3;
                         sta_sender_id := 10050; sta_rssi := -80;
                         sta_power := 1e-8 |}] |}]} |}.

Definition near_data : AllData.t := AllData.add_sequence AllData.init near_seq.

(** The timestamp and room of the line that [write_to_files] writes for
    the timestamp [t_], if it writes one. *)
Definition written_record (seq : gmap Z value) (t_ : Z) : option (Z * Z) :=
  match seq !! t_ with
  | Some (VInt z) => if decide (z = 0) then None else Some (t_, z)
  | _ => None
  end.

(** What a raw mote file says about the timestamp [t_]: the mobile motes
    and the stationary motes of its lines with this timestamp, in the order
    of the lines; the snapshot of a receiver at [t_], when some line has this
    timestamp. *)
Definition mobile_of (receiver_id : Z) (lines : list line) (t_ : Z) : list Signal_mob :=
  (fun l => {| mob_global_time := t_; mob_receiver_id := receiver_id;
               mob_sender_id := cur_id l |})
    <$> filter (fun l => cur_t l = t_ /\ cur_id l < 10000) lines.

Definition stationary_of (convert_rssi_to_power : Z -> result float) (receiver_id : Z)
    (lines : list line) (t_ : Z) : list Signal_sta :=
  omap (fun l =>
          match convert_rssi_to_power (convert_reading_to_rssi (cur_strength l)) with
          | Ok power =>
            Some {| sta_global_time := t_; sta_receiver_id := receiver_id;
                    sta_sender_id := cur_id l;
                    sta_rssi := convert_reading_to_rssi (cur_strength l);
                    sta_power := power |}
          | Raise _ => None
          end)
       (filter (fun l => cur_t l = t_ /\ 10000 <= cur_id l) lines).

Definition snapshot_of (convert_rssi_to_power : Z -> result float) (receiver_id : Z)
    (lines : list line) (t_ : Z) : option Signals.t :=
  if decide (Exists (fun l => cur_t l = t_) lines) then
    Some {| Signals.global_time := t_; Signals.receiver_id := receiver_id;
            Signals.mobile := mobile_of receiver_id lines t_;
            Signals.stationary := stationary_of convert_rssi_to_power receiver_id lines t_ |}
  else None.

(** Five lines of a raw mote file of receiver 1, and a stand-in for the
    conversion of an rssi to a power. *)
Definition example_lines : list line :=
  [ {| cur_id := 2; cur_strength := 0; cur_t := 100 |};
    {| cur_id := 10050; cur_strength := 218; cur_t := 100 |};
    {| cur_id := 2; cur_strength := 0; cur_t := 100 |};
    {| cur_id := 10050; cur_strength := 211; cur_t := 100 |};
    {| cur_id := 7; cur_strength := 0; cur_t := 120 |} ].

Definition example_power (rssi : Z) : result float :=
  if rssi <? -85 then Ok 1e-9%float else Ok 5e-9%float.

Definition example_seq : Receiver_sequence.t :=
  match read_person_to_person_file example_power (fun l => l) 1 example_lines with
  | Done seq => seq
  | Stop _ => {| Receiver_sequence.receiver_id := 1; Receiver_sequence.sequence := ∅ |}
  end.

(** ** Definitions used to state the further properties *)

(** The exceptions that [identify_location] can raise on the observation
    stores [sequences]: a [KeyError] for a mote without sequence, an
    [OverflowError] or a [ZeroDivisionError]. *)
Definition expected_exn (sequences : gmap Z Receiver_sequence.t) (e : exn) : Prop :=
  match e with
  | KeyError k => sequences !! k = None
  | ZeroDivisionError | OverflowError => True
  | UnboundLocalError => False
  end.

(** [l] is the list of contacts of receiver [i] at the timestamp [x] of the
    window of [t_] under the kernel [t_w_list]. *)
Definition contact_entry (sequences : gmap Z Receiver_sequence.t) (i t_ : Z)
    (t_w_list : list (Z * Z)) (x : Z) (l : list Z) : Prop :=
  exists t_w si,
    t_w ∈ t_w_list /\ x = t_ + t_w.1 /\
    sequences !! i = Some si /\
    is_Some (Receiver_sequence.sequence si !! x) /\
    l = i :: Receiver_sequence.return_neighbor_ids si x.

(** The stationary mote [r] was received, at a timestamp of the window, by
    receiver [i] or by one of its contacts at that timestamp. *)
Definition seen (sequences : gmap Z Receiver_sequence.t) (i t_ : Z)
    (t_w_list : list (Z * Z)) (r : Z) : Prop :=
  exists x l c sc snap sta,
    contact_entry sequences i t_ t_w_list x l /\
    c ∈ l /\
    sequences !! c = Some sc /\
    Receiver_sequence.sequence sc !! x = Some snap /\
    sta ∈ Signals.stationary snap /\
    sta_sender_id sta = r.

(** * Properties *)

(** C5: the calibration of a raw reading: [reading - 45] below 128, and
    [-1 * ((reading - 1) XOR 0xFF) - 45] from 128 on. *)
Theorem convert_reading_to_rssi_spec (reading : Z) :
  (reading < 128 -> convert_reading_to_rssi reading = reading - 45) /\
  (128 <= reading ->
   convert_reading_to_rssi reading = -1 * (Z.lxor (reading - 1) 0xFF) - 45).
Proof.
  unfold convert_reading_to_rssi. split; intros H.
  - destruct (Z.ltb_spec reading 128); [reflexivity | lia].
  - destruct (Z.ltb_spec reading 128); [lia | reflexivity].
Qed.

Lemma convert_reading_to_rssi_spec_witness :
  convert_reading_to_rssi 100 = 100 - 45 /\
  convert_reading_to_rssi 200 = -1 * (Z.lxor (200 - 1) 0xFF) - 45.
Proof.
  split.
  - apply (proj1 (convert_reading_to_rssi_spec 100)). lia.
  - apply (proj2 (convert_reading_to_rssi_spec 200)). lia.
Defined.


(** ** smooth_location *)

Section smooth_location_facts.

Import AllData.

Implicit Types (locs : gmap Z (gmap Z value)) (seq : gmap Z value) (p : list bool).

Lemma rewrite_rooms_ok locs i t_ p t_add r1 seq :
  locs !! i = Some seq ->
  rewrite_rooms locs i t_ p t_add r1 = Ok (<[i := rewrite_seq seq t_ p t_add r1]> locs).
Proof.
  revert locs seq t_add. induction p as [|b p IH]; intros locs seq t_add Hi; simpl.
  - by rewrite insert_id.
  - destruct b; [by apply IH|].
    unfold getitem. rewrite Hi. simpl.
    rewrite (IH _ (<[t_ + t_add := r1]> seq)); [|by rewrite lookup_insert_eq].
    by rewrite insert_insert_eq.
Qed.

Lemma rewrite_seq_keep seq t_ p t_add r1 x :
  seq !! x = Some r1 -> rewrite_seq seq t_ p t_add r1 !! x = Some r1.
Proof.
  revert seq t_add. induction p as [|b p IH]; intros seq t_add Hx; simpl; [done|].
  apply IH. destruct b; [done|].
  rewrite lookup_insert. by case_decide.
Qed.

Lemma rewrite_seq_false seq t_ p t_add r1 (k : nat) :
  p !! k = Some false ->
  rewrite_seq seq t_ p t_add r1 !! (t_ + t_add + Z.of_nat k) = Some r1.
Proof.
  revert seq t_add k. induction p as [|b p IH]; intros seq t_add k Hk; [done|].
  destruct k as [|k]; simpl in *.
  - injection Hk as ->. apply rewrite_seq_keep.
    replace (t_ + t_add + Z.of_nat 0) with (t_ + t_add) by lia.
    by rewrite lookup_insert_eq.
  - replace (t_ + t_add + Z.of_nat (S k)) with (t_ + (t_add + 1) + Z.of_nat k) by lia.
    by apply IH.
Qed.

Lemma rewrite_seq_other seq t_ p t_add r1 x :
  (forall k : nat, p !! k = Some false -> x <> t_ + t_add + Z.of_nat k) ->
  rewrite_seq seq t_ p t_add r1 !! x = seq !! x.
Proof.
  revert seq t_add. induction p as [|b p IH]; intros seq t_add Hx; simpl; [done|].
  rewrite IH.
  - destruct b; [done|]. rewrite lookup_insert_ne; [done|].
    specialize (Hx 0%nat eq_refl). lia.
  - intros k Hk. specialize (Hx (S k) Hk). lia.
Qed.

Lemma rewrite_seq_dom seq t_ p t_add r1 :
  (forall k : nat, p !! k = Some false -> is_Some (seq !! (t_ + t_add + Z.of_nat k))) ->
  dom (rewrite_seq seq t_ p t_add r1) = dom seq.
Proof.
  revert seq t_add. induction p as [|b p IH]; intros seq t_add Hp; simpl; [done|].
  rewrite IH.
  - destruct b; [done|]. rewrite dom_insert_L.
    specialize (Hp 0%nat eq_refl). apply elem_of_dom in Hp.
    replace (t_ + t_add + Z.of_nat 0) with (t_ + t_add) in Hp by lia.
    apply subseteq_union_1_L. by apply singleton_subseteq_l.
  - intros k Hk. specialize (Hp (S k) Hk).
    replace (t_ + t_add + Z.of_nat (S k)) with (t_ + (t_add + 1) + Z.of_nat k) in Hp by lia.
    destruct b; [done|]. rewrite lookup_insert. case_decide; [by eauto | done].
Qed.

(** A walk that meets a timestamp without room does not match. *)
Lemma walk_gap locs i t_ p t_add r1 r2 seq (k : nat) :
  locs !! i = Some seq ->
  (k < length p)%nat ->
  seq !! (t_ + t_add + Z.of_nat k) = None ->
  walk locs i t_ p t_add r1 r2 = Ok None.
Proof.
  intros Hi. revert t_add r1 r2 k.
  induction p as [|b p IH]; intros t_add r1 r2 k Hk Hgap; simpl in *; [lia|].
  unfold getitem. rewrite Hi. simpl.
  destruct k as [|k].
  - replace (t_ + t_add + Z.of_nat 0) with (t_ + t_add) in Hgap by lia.
    by rewrite Hgap.
  - assert (Hrest : forall r1' r2', walk locs i t_ p (t_add + 1) r1' r2' = Ok None).
    { intros r1' r2'. apply (IH _ _ _ k); [lia|].
      by replace (t_ + (t_add + 1) + Z.of_nat k) with (t_ + t_add + Z.of_nat (S k)) by lia. }
    destruct (seq !! (t_ + t_add)) as [room|]; [|done].
    destruct b; repeat case_decide; by rewrite ?Hrest.
Qed.

(** A completed walk found a room at every position. *)
Lemma walk_present locs i t_ p t_add r1 r2 r seq (k : nat) :
  locs !! i = Some seq ->
  walk locs i t_ p t_add r1 r2 = Ok (Some r) ->
  (k < length p)%nat ->
  is_Some (seq !! (t_ + t_add + Z.of_nat k)).
Proof.
  intros Hi Hw Hk.
  destruct (seq !! (t_ + t_add + Z.of_nat k)) as [room|] eqn:Hl; [by eauto|].
  by rewrite (walk_gap _ _ _ _ _ _ _ _ _ Hi Hk Hl) in Hw.
Qed.

(** Once room 1 is bound, a completed walk returns it; the positions
    labelled [True] hold it and those labelled [False] hold another room. *)
Lemma walk_bound locs i t_ p t_add r1 r2 r seq :
  locs !! i = Some seq ->
  r1 <> VNone ->
  walk locs i t_ p t_add r1 r2 = Ok (Some r) ->
  r = r1 /\
  forall (k : nat) (b : bool), p !! k = Some b ->
    exists room, seq !! (t_ + t_add + Z.of_nat k) = Some room /\
                 if b then room = r1 else room <> r1.
Proof.
  intros Hi Hr1. revert t_add r2.
  induction p as [|b p IH]; intros t_add r2 Hw; simpl in *.
  - split; [congruence | done].
  - unfold getitem in Hw. rewrite Hi in Hw. simpl in Hw.
    destruct (seq !! (t_ + t_add)) as [room|] eqn:Hroom; [|done].
    assert (Hnext : forall r2', walk locs i t_ p (t_add + 1) r1 r2' = Ok (Some r) ->
              (if b then room = r1 else room <> r1) ->
              r = r1 /\ forall (k : nat) (b0 : bool), (b :: p) !! k = Some b0 ->
                exists room0, seq !! (t_ + t_add + Z.of_nat k) = Some room0 /\
                              if b0 then room0 = r1 else room0 <> r1).
    { intros r2' Hw' Hb. destruct (IH _ _ Hw') as [-> Hpos]. split; [done|].
      intros [|k] b0 Hk; simpl in Hk.
      - injection Hk as <-. exists room.
        by replace (t_ + t_add + Z.of_nat 0) with (t_ + t_add) by lia.
      - replace (t_ + t_add + Z.of_nat (S k)) with (t_ + (t_add + 1) + Z.of_nat k) by lia.
        by apply Hpos. }
    destruct b.
    + destruct (decide (r1 = VNone)) as [?|_]; [done|].
      case_decide; [|done]. apply (Hnext r2); [exact Hw | congruence].
    + repeat case_decide; try done; subst; eapply Hnext; eauto; congruence.
Qed.

(** Room 1 is the room id found at the first position labelled [True]. *)
Lemma walk_first_true locs i t_ p t_add r2 r seq (k : nat) z :
  locs !! i = Some seq ->
  walk locs i t_ p t_add VNone r2 = Ok (Some r) ->
  p !! k = Some true ->
  (forall j : nat, (j < k)%nat -> p !! j = Some false) ->
  seq !! (t_ + t_add + Z.of_nat k) = Some (VInt z) ->
  r = VInt z.
Proof.
  intros Hi. revert t_add r2 k.
  induction p as [|b p IH]; intros t_add r2 k Hw Hk Hbefore Hroom; [done|].
  simpl in Hw. unfold getitem in Hw. rewrite Hi in Hw. simpl in Hw.
  destruct k as [|k]; simpl in Hk.
  - injection Hk as ->.
    replace (t_ + t_add + Z.of_nat 0) with (t_ + t_add) in Hroom by lia.
    rewrite Hroom in Hw. simpl in Hw.
    destruct (decide (VInt z = VInt z)) as [_|?]; [|done].
    eapply walk_bound in Hw as [-> _]; [done | exact Hi | done].
  - pose proof (Hbefore 0%nat ltac:(lia)) as Hb. injection Hb as ->.
    destruct (seq !! (t_ + t_add)) as [room|]; [|done].
    repeat case_decide; try done;
      (eapply (IH _ _ k); [exact Hw | exact Hk | intros j Hj; apply (Hbefore (S j)); lia |
        by replace (t_ + (t_add + 1) + Z.of_nat k) with (t_ + t_add + Z.of_nat (S k)) by lia]).
Qed.

(** With a room sequence for [i], a walk raises no exception. *)
Lemma walk_no_raise locs i t_ p t_add r1 r2 seq e :
  locs !! i = Some seq ->
  walk locs i t_ p t_add r1 r2 <> Raise e.
Proof.
  intros Hi. revert t_add r1 r2.
  induction p as [|b p IH]; intros t_add r1 r2; simpl; [done|].
  unfold getitem. rewrite Hi. simpl.
  destruct (seq !! (t_ + t_add)) as [room|]; [|done].
  destruct b; repeat case_decide; done || apply IH.
Qed.

Lemma smooth_location_skip self i t_ pre rest :
  (forall q, q ∈ pre -> walk (locations self) i t_ q 0 VNone VNone = Ok None) ->
  smooth_location self i t_ (pre ++ rest) = smooth_location self i t_ rest.
Proof.
  induction pre as [|q pre IH]; intros Hpre; simpl; [done|].
  rewrite (Hpre q) by apply list_elem_of_here. simpl.
  apply IH. intros q' Hq'. apply Hpre. by apply list_elem_of_further.
Qed.

Lemma smooth_location_match self i t_ p post r1 seq :
  locations self !! i = Some seq ->
  walk (locations self) i t_ p 0 VNone VNone = Ok (Some r1) ->
  smooth_location self i t_ (p :: post) =
    Ok (1, {| sequences := sequences self;
              locations := <[i := rewrite_seq seq t_ p 0 r1]> (locations self) |}).
Proof.
  intros Hi Hw. simpl. rewrite Hw. simpl.
  by rewrite (rewrite_rooms_ok _ _ _ _ _ _ _ Hi).
Qed.

(** What a call changes in the room sequences: nothing when no pattern
    matches, and the window of the first matching pattern otherwise. *)
Lemma smooth_location_cases self i t_ patterns seq :
  locations self !! i = Some seq ->
  smooth_location self i t_ patterns = Ok (0, self) \/
  exists p r1,
    p ∈ patterns /\
    walk (locations self) i t_ p 0 VNone VNone = Ok (Some r1) /\
    smooth_location self i t_ patterns =
      Ok (1, {| sequences := sequences self;
                locations := <[i := rewrite_seq seq t_ p 0 r1]> (locations self) |}).
Proof.
  intros Hi. induction patterns as [|p rest IH]; [by left|].
  destruct (walk (locations self) i t_ p 0 VNone VNone) as [[r1|]|e] eqn:Hw.
  - right. exists p, r1. split; [apply list_elem_of_here|]. split; [done|].
    by apply smooth_location_match.
  - simpl. rewrite Hw. simpl. destruct IH as [IH|(q & r1 & Hq & Hwq & IH)]; [by left|].
    right. exists q, r1. split; [by apply list_elem_of_further|]. done.
  - by apply (walk_no_raise _ _ _ _ _ _ _ _ _ Hi) in Hw.
Qed.

(** C3: with distinct rooms A and B and a room sequence holding A, B, A, A
    at [t .. t+3] (the claim has [t = 0]), one call with the single pattern
    (True, False, True, True) returns 1 and leaves A, A, A, A there; no other
    entry changes. *)
Theorem smooth_location_ABAA self i t_ seq (A B : Z) :
  A <> B ->
  locations self !! i = Some seq ->
  seq !! t_ = Some (VInt A) ->
  seq !! (t_ + 1) = Some (VInt B) ->
  seq !! (t_ + 2) = Some (VInt A) ->
  seq !! (t_ + 3) = Some (VInt A) ->
  exists seq',
    smooth_location self i t_ [[true; false; true; true]] =
      Ok (1, {| sequences := sequences self;
                locations := <[i := seq']> (locations self) |}) /\
    seq' !! t_ = Some (VInt A) /\
    seq' !! (t_ + 1) = Some (VInt A) /\
    seq' !! (t_ + 2) = Some (VInt A) /\
    seq' !! (t_ + 3) = Some (VInt A) /\
    forall t', t' <> t_ + 1 -> seq' !! t' = seq !! t'.
Proof.
  intros HAB Hi H0 H1 H2 H3.
  assert (Hw : walk (locations self) i t_ [true; false; true; true] 0 VNone VNone
               = Ok (Some (VInt A))).
  { simpl. unfold getitem. rewrite Hi. simpl.
    replace (t_ + 0) with t_ by lia. rewrite H0. simpl.
    destruct (decide (VInt A = VInt A)) as [_|?]; [|done].
    replace (t_ + (0 + 1)) with (t_ + 1) by lia. rewrite H1. simpl.
    destruct (decide (VInt B = VInt A)) as [?|_]; [congruence|].
    destruct (decide (VInt B = VInt B)) as [_|?]; [|done].
    replace (t_ + (0 + 1 + 1)) with (t_ + 2) by lia. rewrite H2. simpl.
    destruct (decide (VInt A = VInt A)) as [_|?]; [|done].
    replace (t_ + (0 + 1 + 1 + 1)) with (t_ + 3) by lia. rewrite H3. simpl.
    by destruct (decide (VInt A = VInt A)) as [_|?]. }
  exists (<[t_ + 1 := VInt A]> seq).
  split.
  { rewrite (smooth_location_match _ _ _ _ _ _ _ Hi Hw). simpl.
    by replace (t_ + (0 + 1)) with (t_ + 1) by lia. }
  rewrite lookup_insert_eq.
  rewrite !lookup_insert_ne by lia.
  repeat (split; [done|]).
  intros t' Ht'. by rewrite lookup_insert_ne.
Qed.

(** C4: when the walk of every pattern meets a timestamp that has no entry
    in the room sequence of [i], the call returns 0 without an exception and
    leaves the whole state as it was. *)
Theorem smooth_location_gap self i t_ patterns seq :
  locations self !! i = Some seq ->
  (forall p, p ∈ patterns ->
     exists k : nat, (k < length p)%nat /\ seq !! (t_ + Z.of_nat k) = None) ->
  smooth_location self i t_ patterns = Ok (0, self).
Proof.
  intros Hi Hgap.
  rewrite <- (app_nil_r patterns). rewrite smooth_location_skip; [done|].
  intros q Hq. destruct (Hgap q Hq) as (k & Hk & Hnone).
  apply (walk_gap _ _ _ _ _ _ _ seq k); [done | done |].
  by replace (t_ + 0 + Z.of_nat k) with (t_ + Z.of_nat k) by lia.
Qed.

(** C10: when the first pattern [p] whose walk completes binds room [r1],
    the call returns 1; the observation stores and the room sequences of the
    other receivers are unchanged; in the room sequence of [i] the positions
    [t + k] with [p[k] = False] hold [r1] and every other entry is
    unchanged; and [r1] is the room id at the first position labelled
    [True]. *)
Theorem smooth_location_frame self i t_ pre p post r1 seq :
  locations self !! i = Some seq ->
  (forall q, q ∈ pre -> walk (locations self) i t_ q 0 VNone VNone = Ok None) ->
  walk (locations self) i t_ p 0 VNone VNone = Ok (Some r1) ->
  exists self' seq',
    smooth_location self i t_ (pre ++ p :: post) = Ok (1, self') /\
    sequences self' = sequences self /\
    (forall j, j <> i -> locations self' !! j = locations self !! j) /\
    locations self' !! i = Some seq' /\
    (forall k : nat, p !! k = Some false -> seq' !! (t_ + Z.of_nat k) = Some r1) /\
    (forall t', (forall k : nat, p !! k = Some false -> t' <> t_ + Z.of_nat k) ->
                seq' !! t' = seq !! t') /\
    (forall (k : nat) z,
       p !! k = Some true -> (forall j : nat, (j < k)%nat -> p !! j = Some false) ->
       seq !! (t_ + Z.of_nat k) = Some (VInt z) -> r1 = VInt z).
Proof.
  intros Hi Hpre Hw.
  exists {| sequences := sequences self;
            locations := <[i := rewrite_seq seq t_ p 0 r1]> (locations self) |},
         (rewrite_seq seq t_ p 0 r1).
  split; [|split; [done|split; [|split; [|split; [|split]]]]]; simpl.
  - rewrite smooth_location_skip by done. by apply smooth_location_match.
  - intros j Hj. by rewrite lookup_insert_ne.
  - by rewrite lookup_insert_eq.
  - intros k Hk. replace (t_ + Z.of_nat k) with (t_ + 0 + Z.of_nat k) by lia.
    by apply rewrite_seq_false.
  - intros t' Ht'. apply rewrite_seq_other. intros k Hk.
    replace (t_ + 0 + Z.of_nat k) with (t_ + Z.of_nat k) by lia. by apply Ht'.
  - intros k z Hk Hbefore Hroom.
    eapply (walk_first_true _ _ _ _ 0 _ _ _ k); eauto.
    by replace (t_ + 0 + Z.of_nat k) with (t_ + Z.of_nat k) by lia.
Qed.

(** The state after a call that returned. *)
Lemma smooth_location_dom self i t_ patterns c self' j seq :
  smooth_location self i t_ patterns = Ok (c, self') ->
  locations self !! j = Some seq ->
  exists seq', locations self' !! j = Some seq' /\ dom seq' = dom seq.
Proof.
  intros Hs Hj. destruct (locations self !! i) as [seqi|] eqn:Hi.
  - destruct (smooth_location_cases self i t_ patterns seqi Hi)
      as [H0|(p & r1 & Hp & Hw & H1)].
    + rewrite H0 in Hs. injection Hs as <- <-. by exists seq.
    + rewrite H1 in Hs. injection Hs as <- <-. simpl.
      destruct (decide (j = i)) as [->|Hne].
      * rewrite lookup_insert_eq. eexists; split; [done|].
        assert (seq = seqi) as -> by congruence.
        apply rewrite_seq_dom. intros k Hk.
        apply (walk_present _ _ _ _ _ _ _ _ _ k Hi Hw).
        by apply lookup_lt_Some in Hk.
      * rewrite lookup_insert_ne by done. by exists seq.
  - assert (locations self' = locations self) as Heq.
    { destruct patterns as [|[|b p] rest]; simpl in Hs.
      - by injection Hs as <- <-.
      - by injection Hs as <- <-.
      - unfold getitem in Hs. by rewrite Hi in Hs. }
    rewrite Heq. by exists seq.
Qed.

End smooth_location_facts.

Lemma smooth_location_ABAA_witness :
  exists seq',
    AllData.smooth_location abaa_data 1 0 [[true; false; true; true]] =
      Ok (1, {| AllData.sequences := AllData.sequences abaa_data;
                AllData.locations := <[1 := seq']> (AllData.locations abaa_data) |}) /\
    seq' !! 0 = Some (VInt 5) /\
    seq' !! (0 + 1) = Some (VInt 5) /\
    seq' !! (0 + 2) = Some (VInt 5) /\
    seq' !! (0 + 3) = Some (VInt 5) /\
    forall t', t' <> 0 + 1 -> seq' !! t' = abaa_seq !! t'.
Proof.
  apply (smooth_location_ABAA abaa_data 1 0 abaa_seq 5 7); [lia | reflexivity ..].
Defined.

Lemma smooth_location_gap_witness :
  AllData.smooth_location gap_data 1 600 main_patterns = Ok (0, gap_data).
Proof.
  apply (smooth_location_gap gap_data 1 600 main_patterns gap_seq); [reflexivity|].
  intros p Hp. exists 2%nat.
  apply elem_of_cons in Hp as [->|Hp]; [split; [simpl; lia | reflexivity]|].
  apply list_elem_of_singleton in Hp as ->. split; [simpl; lia | reflexivity].
Defined.

Lemma smooth_location_frame_witness :
  exists self' seq',
    AllData.smooth_location flicker_data 1 600
      ([[true; true; false; true]] ++ [true; false; true; true] :: []) = Ok (1, self') /\
    AllData.sequences self' = AllData.sequences flicker_data /\
    (forall j, j <> 1 ->
       AllData.locations self' !! j = AllData.locations flicker_data !! j) /\
    AllData.locations self' !! 1 = Some seq' /\
    (forall k : nat, [true; false; true; true] !! k = Some false ->
       seq' !! (600 + Z.of_nat k) = Some (VInt 5)) /\
    (forall t', (forall k : nat, [true; false; true; true] !! k = Some false ->
                   t' <> 600 + Z.of_nat k) ->
                seq' !! t' = flicker_seq !! t') /\
    (forall (k : nat) z,
       [true; false; true; true] !! k = Some true ->
       (forall j : nat, (j < k)%nat -> [true; false; true; true] !! j = Some false) ->
       flicker_seq !! (600 + Z.of_nat k) = Some (VInt z) -> VInt 5 = VInt z).
Proof.
  apply (smooth_location_frame flicker_data 1 600 [[true; true; false; true]]
           [true; false; true; true] [] (VInt 5) flicker_seq).
  - reflexivity.
  - intros q Hq. apply list_elem_of_singleton in Hq as ->. vm_compute. reflexivity.
  - vm_compute. reflexivity.
Defined.

(** ** identify_location: the stored result *)

Section identify_location_store.

Import AllData.
Variable order : list Z -> list Z.

Lemma identify_location_at_store threshold self i t_ t_w_list r self' :
  identify_location_at order threshold self i t_ t_w_list = Ok (r, self') ->
  self' = store_location self i t_ r.
Proof.
  unfold identify_location_at. intros H.
  destruct (aggregate_signals order (sequences self) i t_ t_w_list) as [sig|]; [|done].
  simpl in H.
  destruct (find_strongest sig (iter order sig) 0 0) as [[max_id max_signal]|]; [|done].
  simpl in H. by injection H as <- <-.
Qed.

Lemma store_location_lookup self i t_ r j :
  locations (store_location self i t_ r) !! j =
    if decide (j = i) then Some (<[t_ := VInt r]> (default ∅ (locations self !! i)))
    else locations self !! j.
Proof.
  unfold store_location. simpl.
  destruct (decide (j = i)) as [->|Hj];
    destruct (decide (is_Some (locations self !! i))) as [Hi|Hi].
  - rewrite lookup_insert_eq, lookup_total_alt. done.
  - rewrite lookup_insert_eq, lookup_total_alt, lookup_insert_eq. simpl.
    destruct (locations self !! i) eqn:E; [|done]. exfalso. apply Hi. by eauto.
  - by rewrite lookup_insert_ne.
  - by rewrite !lookup_insert_ne.
Qed.

(** C9: a call of [identify_location] or [smooth_location] that returns
    removes no timestamp from any room sequence: [identify_location] adds or
    overwrites the entry at [t] of receiver [i] only, and [smooth_location]
    keeps the set of timestamps of every sequence. *)
Theorem room_sequence_never_shrinks op self r self' j seq :
  call order op self = Ok (r, self') ->
  locations self !! j = Some seq ->
  exists seq',
    locations self' !! j = Some seq' /\
    dom seq ⊆ dom seq' /\
    match op with
    | Identify i t_ _ => forall t', j <> i \/ t' <> t_ -> seq' !! t' = seq !! t'
    | Smooth _ _ _ => dom seq' = dom seq
    end.
Proof.
  intros Hcall Hj. destruct op as [i t_ t_w_list|i t_ patterns]; simpl in Hcall.
  - apply identify_location_at_store in Hcall as ->.
    rewrite store_location_lookup. case_decide as Hji.
    + subst j. rewrite Hj. simpl. eexists; split; [done|]. split.
      * rewrite dom_insert_L. apply union_subseteq_r.
      * intros t' [?|Ht']; [done|]. by rewrite lookup_insert_ne.
    + exists seq. split; [done|]. split; [done|]. done.
  - destruct (smooth_location_dom _ _ _ _ _ _ _ _ Hcall Hj) as (seq' & Hl & Hdom).
    exists seq'. split; [done|]. split; [|done]. by rewrite Hdom.
Qed.

End identify_location_store.

Lemma room_sequence_never_shrinks_witness :
  exists seq',
    AllData.locations
      {| AllData.sequences := ∅;
         AllData.locations := {[1 := <[601 := VInt 5]> flicker_seq]} |} !! 1 = Some seq' /\
    dom flicker_seq ⊆ dom seq' /\
    dom seq' = dom flicker_seq.
Proof.
  apply (room_sequence_never_shrinks (fun l => l) (Smooth 1 600 main_patterns)
           flicker_data 1).
  - vm_compute. reflexivity.
  - reflexivity.
Defined.

(** ** The smoothing loop *)

Section smoothing_loop.

Import AllData.

Implicit Types (locs : gmap Z (gmap Z value)) (seq : gmap Z value) (p : list bool).

(** A completed walk of a pattern that begins with [True], over room ids:
    room 1 is a room id, the positions labelled [True] hold it and those
    labelled [False] hold another room. *)
Lemma walk_rooms locs i t_ p r1 seq :
  locs !! i = Some seq ->
  rooms_only seq ->
  head p = Some true ->
  walk locs i t_ p 0 VNone VNone = Ok (Some r1) ->
  r1 <> VNone /\
  forall (k : nat) (b : bool), p !! k = Some b ->
    exists room, seq !! (t_ + Z.of_nat k) = Some room /\
                 if b then room = r1 else room <> r1.
Proof.
  intros Hi Hro Hhead Hw. destruct p as [|b q]; [done|].
  injection Hhead as ->. simpl in Hw.
  unfold getitem in Hw. rewrite Hi in Hw. simpl in Hw.
  destruct (seq !! (t_ + 0)) as [room|] eqn:Hroom; [|done].
  destruct (decide (room = room)) as [_|?]; [|done].
  assert (room <> VNone) as Hne by (by eapply Hro).
  apply (walk_bound _ _ _ _ _ _ _ _ _ Hi Hne) in Hw as [-> Hpos].
  split; [done|]. intros [|k] b Hk; simpl in Hk.
  - injection Hk as <-. exists room. by rewrite <- Hroom.
  - destruct (Hpos k b Hk) as (room' & Hl & Hb). exists room'. split; [|done].
    rewrite <- Hl. f_equal. lia.
Qed.

Lemma rewrite_seq_rooms_only seq t_ p t_add r1 :
  rooms_only seq -> r1 <> VNone -> rooms_only (rewrite_seq seq t_ p t_add r1).
Proof.
  intros Hro Hr1. revert seq t_add Hro.
  induction p as [|b p IH]; intros seq t_add Hro; simpl; [done|].
  apply IH. destruct b; [done|].
  intros x v. rewrite lookup_insert. case_decide; [congruence | apply Hro].
Qed.

(** In a pattern that begins with [True] and has a [False], some [True] is
    followed by a [False]. *)
Lemma true_then_false p :
  head p = Some true -> false ∈ p ->
  exists k : nat, p !! k = Some true /\ p !! S k = Some false.
Proof.
  induction p as [|b p IH]; intros Hhead Hin; [done|].
  injection Hhead as ->.
  apply elem_of_cons in Hin as [?|Hin]; [done|].
  destruct p as [|[|] q].
  - by apply elem_of_nil in Hin.
  - destruct (IH eq_refl Hin) as (k & ? & ?). by exists (S k).
  - by exists 0%nat.
Qed.

(** A position is one of those labelled [False], or it is not. *)
Lemma false_position_cases p t_ x :
  (exists k : nat, p !! k = Some false /\ x = t_ + Z.of_nat k) \/
  (forall k : nat, p !! k = Some false -> x <> t_ + Z.of_nat k).
Proof.
  destruct (decide (t_ <= x)) as [Hle|Hlt].
  - destruct (p !! Z.to_nat (x - t_)) as [[|]|] eqn:E.
    + right. intros k Hk ->. replace (Z.to_nat (t_ + Z.of_nat k - t_)) with k in E by lia.
      congruence.
    + left. exists (Z.to_nat (x - t_)). split; [done | lia].
    + right. intros k Hk ->. replace (Z.to_nat (t_ + Z.of_nat k - t_)) with k in E by lia.
      congruence.
  - right. intros k _. lia.
Qed.

(** A correction by a bracketed pattern strictly reduces the number of
    alternations of a sequence of room ids. *)
Lemma correction_reduces_alternations locs i t_ p r1 seq :
  locs !! i = Some seq ->
  rooms_only seq ->
  bracketed p ->
  walk locs i t_ p 0 VNone VNone = Ok (Some r1) ->
  rooms_only (rewrite_seq seq t_ p 0 r1) /\
  (alternations (rewrite_seq seq t_ p 0 r1) < alternations seq)%nat.
Proof.
  intros Hi Hro (Hhead & Hlast & Hfalse) Hw.
  destruct (walk_rooms _ _ _ _ _ _ Hi Hro Hhead Hw) as [Hr1 Hpos].
  split; [by apply rewrite_seq_rooms_only|].
  set (seq' := rewrite_seq seq t_ p 0 r1).
  assert (Hin : forall k : nat, (k < length p)%nat -> seq' !! (t_ + Z.of_nat k) = Some r1).
  { intros k Hk. destruct (lookup_lt_is_Some_2 p k Hk) as [b Hb].
    replace (t_ + Z.of_nat k) with (t_ + 0 + Z.of_nat k) by lia.
    destruct b.
    - apply rewrite_seq_keep. destruct (Hpos k true Hb) as (room & Hl & ->).
      rewrite <- Hl. f_equal. lia.
    - by apply rewrite_seq_false. }
  assert (Hout : forall x, (forall k : nat, p !! k = Some false -> x <> t_ + Z.of_nat k) ->
                           seq' !! x = seq !! x).
  { intros x Hx. apply rewrite_seq_other. intros k Hk.
    replace (t_ + 0 + Z.of_nat k) with (t_ + Z.of_nat k) by lia. by apply Hx. }
  assert (Hinner : forall k : nat, p !! k = Some false ->
                     (0 < k)%nat /\ (S k < length p)%nat).
  { intros k Hk. split.
    - destruct k; [|lia]. destruct p; simpl in *; congruence.
    - pose proof (lookup_lt_Some _ _ _ Hk) as Hlen.
      rewrite last_lookup in Hlast.
      destruct (decide (S k = length p)) as [E|]; [|lia].
      replace (pred (length p)) with k in Hlast by lia. congruence. }
  assert (Hdom : dom seq' = dom seq).
  { apply rewrite_seq_dom. intros k Hk. destruct (Hpos k false Hk) as (room & Hl & _).
    replace (t_ + 0 + Z.of_nat k) with (t_ + Z.of_nat k) by lia. by eauto. }
  assert (Hflat : forall k : nat, (S k < length p)%nat -> alt_at seq' (t_ + Z.of_nat k) = false).
  { intros k Hk. unfold alt_at.
    rewrite (Hin k) by lia.
    replace (t_ + Z.of_nat k + 1) with (t_ + Z.of_nat (S k)) by lia.
    rewrite (Hin (S k)) by lia. by rewrite bool_decide_eq_false_2 by (intros H; by apply H). }
  unfold alternations. apply subset_size. fold seq'. rewrite Hdom. split.
  - intros x. rewrite !elem_of_filter. intros [Halt Hd]. split; [|done].
    destruct (false_position_cases p t_ x) as [(k & Hk & ->)|Hx].
    { destruct (Hinner k Hk). rewrite Hflat in Halt by done. done. }
    destruct (false_position_cases p t_ (x + 1)) as [(k & Hk & Hxk)|Hx1].
    { destruct (Hinner k Hk). replace x with (t_ + Z.of_nat (k - 1)) in Halt by lia.
      rewrite Hflat in Halt by lia. done. }
    unfold alt_at in *. by rewrite (Hout x Hx), (Hout (x + 1) Hx1) in Halt.
  - intros Hsub. destruct (true_then_false p Hhead Hfalse) as (k & Hkt & Hkf).
    destruct (Hpos k true Hkt) as (room & Hl & ->).
    destruct (Hpos (S k) false Hkf) as (room' & Hl' & Hne).
    assert (t_ + Z.of_nat k ∈ filter (fun x => alt_at seq x = true) (dom seq)) as Hel.
    { apply elem_of_filter. split; [|by apply elem_of_dom; eauto].
      unfold alt_at. rewrite Hl.
      replace (t_ + Z.of_nat k + 1) with (t_ + Z.of_nat (S k)) by lia.
      rewrite Hl'. apply bool_decide_eq_true_2. congruence. }
    apply Hsub in Hel. apply elem_of_filter in Hel as [Halt _].
    rewrite Hflat in Halt; [done|]. by apply lookup_lt_Some in Hkf.
Qed.

(** One pass over the timestamps [ts]: every correction counted in [cnt]
    removes at least one alternation. *)
Lemma smooth_pass_alternations i patterns ts :
  Forall bracketed patterns ->
  forall data cnt seq,
    locations data !! i = Some seq ->
    rooms_only seq ->
    exists cnt' data' seq',
      smooth_pass data i ts patterns cnt = Ok (cnt', data') /\
      locations data' !! i = Some seq' /\
      rooms_only seq' /\
      Z.of_nat (alternations seq') + (cnt' - cnt) <= Z.of_nat (alternations seq).
Proof.
  intros Hpat. induction ts as [|t_ ts IH]; intros data cnt seq Hi Hro.
  - exists cnt, data, seq. simpl. repeat split; [done | done | lia].
  - simpl. destruct (smooth_location_cases data i t_ patterns seq Hi)
      as [H0|(p & r1 & Hp & Hw & H1)].
    + rewrite H0. simpl.
      destruct (IH data (cnt + 0) seq Hi Hro) as (cnt' & data' & seq' & Hpass & ? & ? & ?).
      exists cnt', data', seq'. repeat split; [done | done | done | lia].
    + rewrite H1. simpl.
      rewrite Forall_forall in Hpat.
      destruct (correction_reduces_alternations _ _ _ _ _ _ Hi Hro (Hpat p Hp) Hw)
        as [Hro' Hlt].
      set (data1 := {| sequences := sequences data;
                       locations := <[i := rewrite_seq seq t_ p 0 r1]> (locations data) |}).
      destruct (IH data1 (cnt + 1) (rewrite_seq seq t_ p 0 r1))
        as (cnt' & data' & seq' & Hpass & ? & ? & ?);
        [by simpl; rewrite lookup_insert_eq | done |].
      exists cnt', data', seq'. repeat split; [done | done | done | lia].
Qed.

Lemma smooth_loop_fuel i patterns ts :
  Forall bracketed patterns ->
  forall (n : nat) data seq,
    locations data !! i = Some seq ->
    rooms_only seq ->
    (alternations seq <= n)%nat ->
    exists data', smooth_loop (S n) data i ts patterns = Some (Ok data').
Proof.
  intros Hpat. induction n as [|n IH]; intros data seq Hi Hro Hn;
    destruct (smooth_pass_alternations i patterns ts Hpat data 0 seq Hi Hro)
      as (cnt' & data' & seq' & Hpass & Hi' & Hro' & Hle);
    cbn [smooth_loop]; rewrite Hpass.
  - destruct (Z.ltb_spec 0 cnt'); [lia|]. by exists data'.
  - destruct (Z.ltb_spec 0 cnt'); [|by exists data'].
    apply (IH data' seq'); [done | done | lia].
Qed.

(** C7, as amended: for a room sequence of room ids and patterns that each
    begin and end with [True] and contain a [False] (as the two patterns of
    the main program do), the smoothing loop ends, without an exception,
    after at most one pass more than the sequence has alternations: every
    correction removes an alternation ([correction_reduces_alternations]). *)
Theorem smooth_loop_terminates data i ts patterns seq :
  locations data !! i = Some seq ->
  rooms_only seq ->
  Forall bracketed patterns ->
  exists data', smooth_loop (S (alternations seq)) data i ts patterns = Some (Ok data').
Proof.
  intros Hi Hro Hpat. by apply (smooth_loop_fuel i patterns ts Hpat _ data seq).
Qed.

End smoothing_loop.

(** C7, as stated, fails: with the single pattern (True, True) and room 5 at
    600 and 601, every pass over [range(600, 3000)] counts one match and
    changes nothing, so the loop never ends. *)
Lemma smooth_loop_diverges :
  ~ exists fuel r, smooth_loop fuel steady_data 1 main_range [[true; true]] = Some r.
Proof.
  assert (Hpass : smooth_pass steady_data 1 main_range [[true; true]] 0
                  = Ok (1, steady_data)) by (vm_compute; reflexivity).
  intros (fuel & r & H). induction fuel as [|fuel IH]; [done|].
  cbn [smooth_loop] in H. rewrite Hpass in H. by apply IH.
Qed.

Lemma smooth_loop_terminates_witness :
  exists data',
    smooth_loop (S (alternations flicker_seq)) flicker_data 1 main_range main_patterns
    = Some (Ok data').
Proof.
  apply (smooth_loop_terminates flicker_data 1 main_range main_patterns flicker_seq).
  - reflexivity.
  - apply (bool_decide_unpack _). vm_compute. reflexivity.
  - repeat constructor.
Defined.

(** ** Order of binary64 numbers *)

Ltac cmp_cases :=
  repeat match goal with
  | H : context [Pos.compare_cont Eq ?a ?b] |- _ =>
      change (Pos.compare_cont Eq a b) with (Pos.compare a b) in H
  | |- context [Pos.compare_cont Eq ?a ?b] =>
      change (Pos.compare_cont Eq a b) with (Pos.compare a b)
  end;
  repeat match goal with
  | H : context [Z.compare ?a ?b] |- _ => destruct (Z.compare_spec a b); simpl in H
  | |- context [Z.compare ?a ?b] => destruct (Z.compare_spec a b); simpl
  | H : context [Pos.compare ?a ?b] |- _ => destruct (Pos.compare_spec a b); simpl in H
  | |- context [Pos.compare ?a ?b] => destruct (Pos.compare_spec a b); simpl
  end;
  try discriminate; try reflexivity; try lia.

Ltac float_cases a b c :=
  unfold SFltb, SFleb, SFcompare;
  destruct a as [[|]|[|]| |[|] ? ?], b as [[|]|[|]| |[|] ? ?], c as [[|]|[|]| |[|] ? ?];
  simpl; try discriminate; try reflexivity; intros; cmp_cases.

Lemma SFltb_trans a b c : SFltb a b = true -> SFltb b c = true -> SFltb a c = true.
Proof. float_cases a b c. Qed.

Lemma SFltb_leb_trans a b c : SFltb a b = true -> SFleb b c = true -> SFltb a c = true.
Proof. float_cases a b c. Qed.

Lemma SFltb_not_leb a b c : SFltb a b = true -> SFltb a c = false -> SFleb b c = false.
Proof. float_cases a b c. Qed.

Lemma SFltb_irrefl a : SFltb a a = false.
Proof.
  unfold SFltb, SFcompare. destruct a as [[|]|[|]| |[|] ? ?]; simpl; try reflexivity;
    cmp_cases.
Qed.

Lemma float_ltb_trans (a b c : float) :
  (a <? b)%float = true -> (b <? c)%float = true -> (a <? c)%float = true.
Proof. rewrite !ltb_spec. apply SFltb_trans. Qed.

Lemma float_ltb_leb_trans (a b c : float) :
  (a <? b)%float = true -> (b <=? c)%float = true -> (a <? c)%float = true.
Proof. rewrite !ltb_spec, leb_spec. apply SFltb_leb_trans. Qed.

Lemma float_ltb_not_leb (a b c : float) :
  (a <? b)%float = true -> (a <? c)%float = false -> (b <=? c)%float = false.
Proof. rewrite !ltb_spec, leb_spec. apply SFltb_not_leb. Qed.

Lemma float_ltb_asym (a b : float) :
  (a <? b)%float = true -> (b <=? a)%float = false.
Proof.
  intros H. apply (float_ltb_not_leb a b a H). rewrite ltb_spec. apply SFltb_irrefl.
Qed.

(** ** identify_location: the strongest signal *)

Lemma Dict_get_keys {V : Type} (d : Dict.t V) (k : Z) :
  k ∈ Dict.keys d <-> is_Some (Dict.get k d).
Proof.
  unfold Dict.keys. induction d as [|[k' v] d IH]; simpl.
  - split; [intros H; by apply elem_of_nil in H | intros [? ?]; done].
  - rewrite elem_of_cons. destruct (Z.eqb_spec k k') as [->|Hne].
    + split; [by eauto | by left].
    + rewrite <- IH. split; [intros [?|?]; done | by right].
Qed.

Section identify_location_facts.

Import AllData.
Variable order : list Z -> list Z.
Hypothesis order_perm : forall l, order l ≡ₚ l.

Lemma iter_get {V : Type} (d : Dict.t V) (k : Z) :
  k ∈ iter order d <-> is_Some (Dict.get k d).
Proof. unfold iter. by rewrite order_perm, Dict_get_keys. Qed.

Lemma find_strongest_spec signals rs :
  (forall r, r ∈ rs -> is_Some (Dict.get r signals)) ->
  forall start_id start,
  exists max_id max_signal,
    find_strongest signals rs start_id start = Ok (max_id, max_signal) /\
    strongest signals rs start start_id max_id max_signal.
Proof.
  induction rs as [|r rest IH]; intros Hall start_id start.
  - exists start_id, start. split; [done|]. left. repeat split.
    intros r Hr. by apply elem_of_nil in Hr.
  - destruct (Hall r) as [v Hv]; [by left|].
    assert (Hrest : forall r', r' ∈ rest -> is_Some (Dict.get r' signals))
      by (intros r' Hr'; apply Hall; by right).
    simpl. unfold Dict.getitem. rewrite Hv. simpl.
    destruct (start <? v)%float eqn:E.
    + destruct (IH Hrest r v) as (max_id & max_signal & Hf & Hs).
      exists max_id, max_signal. split; [done|]. right.
      destruct Hs as [(-> & -> & Hle)|(pre & post & -> & Hget & Hlt & Hpre & Hpost)].
      * exists [], rest. split; [done|]. split; [done|]. split; [done|].
        split; [|done]. intros r' Hr'. by apply elem_of_nil in Hr'.
      * exists (r :: pre), post. split; [done|]. split; [done|].
        split; [by eapply float_ltb_trans|]. split; [|done].
        intros r' Hr'. apply elem_of_cons in Hr' as [->|Hr']; [|by apply Hpre].
        exists v. split; [done|]. by apply float_ltb_asym.
    + destruct (IH Hrest start_id start) as (max_id & max_signal & Hf & Hs).
      exists max_id, max_signal. split; [done|].
      destruct Hs as [(-> & -> & Hle)|(pre & post & -> & Hget & Hlt & Hpre & Hpost)].
      * left. repeat split. intros r' Hr'.
        apply elem_of_cons in Hr' as [->|Hr']; [by exists v | by apply Hle].
      * right. exists (r :: pre), post. split; [done|]. split; [done|].
        split; [done|]. split; [|done].
        intros r' Hr'. apply elem_of_cons in Hr' as [->|Hr']; [|by apply Hpre].
        exists v. split; [done|]. by eapply float_ltb_not_leb.
Qed.

(** Two rooms with the same signal: the one enumerated first is kept. *)
Example find_strongest_tie :
  find_strongest [(10050, 5e-9%float); (10051, 5e-9%float)] [10050; 10051] 0 0
    = Ok (10050, 5e-9%float) /\
  find_strongest [(10050, 5e-9%float); (10051, 5e-9%float)] [10051; 10050] 0 0
    = Ok (10051, 5e-9%float).
Proof. split; vm_compute; reflexivity. Qed.

(** C1: once the signals are aggregated, [identify_location] returns; the
    room [max_id] it selects is the first room, in the order of enumeration,
    whose aggregated signal no room exceeds (the rooms enumerated before it
    are not even equal to it), or no room when no signal is above [0.0]; and
    the returned room is 0 when the strongest signal is below [THRESHOLD],
    in particular when every room is below it or there is no room. *)
Theorem identify_location_selects self i t_ t_w_list signals :
  aggregate_signals order (sequences self) i t_ t_w_list = Ok signals ->
  exists max_id max_signal,
    strongest signals (iter order signals) 0 0 max_id max_signal /\
    let r := if (max_signal <? THRESHOLD)%float then 0 else max_id in
    identify_location order self i t_ t_w_list = Ok (r, store_location self i t_ r) /\
    ((forall room v, Dict.get room signals = Some v -> (v <? THRESHOLD)%float = true) ->
     r = 0) /\
    (signals = [] -> r = 0).
Proof.
  intros Hagg.
  destruct (find_strongest_spec signals (iter order signals)
              (fun r => proj1 (iter_get signals r)) 0 0%float)
    as (max_id & max_signal & Hf & Hs).
  exists max_id, max_signal. split; [done|].
  assert (Hbelow : (forall room v, Dict.get room signals = Some v ->
                      (v <? THRESHOLD)%float = true) ->
                   (if (max_signal <? THRESHOLD)%float then 0 else max_id) = 0).
  { intros Hall.
    destruct Hs as [(_ & -> & _)|(pre & post & _ & Hget & _)].
    - reflexivity.
    - by rewrite (Hall _ _ Hget). }
  split; [|split; [done|]].
  - unfold identify_location, identify_location_at. rewrite Hagg. simpl.
    rewrite Hf. reflexivity.
  - intros ->. apply Hbelow. intros room v Hget. done.
Qed.

Lemma order_singleton x : order [x] = [x].
Proof. apply Permutation_singleton_r. by rewrite order_perm. Qed.

Lemma order_nil : order [] = [].
Proof. apply Permutation_nil_r. by rewrite order_perm. Qed.

(** The signals of receiver 1 and of its contact 2 in the scenario. *)
Lemma scenario_aggregate :
  aggregate_signals order (sequences scenario_data) 1 100 [(0, 1)]
  = Ok [(10050, 3e-9%float)].
Proof.
  unfold aggregate_signals.
  assert (Hc : build_contacts (sequences scenario_data) 1 100 [(0, 1)] []
               = Ok [(100, [1; 2])]) by (vm_compute; reflexivity).
  rewrite Hc. unfold iter. cbn [mbind result_bind Dict.keys map fst].
  rewrite order_singleton.
  assert (Hn : count_datapoints 100 [(0, 1)] [(100, [1; 2])] [100] None 0
               = Ok (Some 1, 2)) by (vm_compute; reflexivity).
  rewrite Hn. cbn [mbind result_bind fmap option_fmap option_map build_data].
  assert (Hw : scan_weight_float 100 100 [(0, 1)] (Some (PyInt 1))
               = Ok (Some (PyFloat 1))) by (vm_compute; reflexivity).
  rewrite Hw. cbn [mbind result_bind].
  change (Dict.getitem 100 [(100, [1; 2])]) with (Ok [1; 2]).
  cbn [mbind result_bind add_contacts].
  assert (H1 : getitem 1 (sequences scenario_data) = Ok scenario_seq_1)
    by (vm_compute; reflexivity).
  assert (H2 : getitem 2 (sequences scenario_data) = Ok scenario_seq_2)
    by (vm_compute; reflexivity).
  assert (R1 : Receiver_sequence.return_nearest_rooms scenario_seq_1 100
               = [(10050, (5e-9%float, -83))]) by (vm_compute; reflexivity).
  assert (R2 : Receiver_sequence.return_nearest_rooms scenario_seq_2 100
               = [(10050, (1e-9%float, -90))]) by (vm_compute; reflexivity).
  rewrite H1, H2. cbn [mbind result_bind]. rewrite R1, R2.
  unfold iter. cbn [Dict.keys map fst]. rewrite !order_singleton.
  assert (A1 : add_rooms [(10050, (5e-9%float, -83))] [10050] (Some (PyFloat 1)) 2 []
               = Ok [(10050, 2.5e-9%float)]) by (vm_compute; reflexivity).
  rewrite A1. cbn [mbind result_bind].
  assert (A2 : add_rooms [(10050, (1e-9%float, -90))] [10050] (Some (PyFloat 1)) 2
                 [(10050, 2.5e-9%float)]
               = Ok [(10050, 3e-9%float)]) by (vm_compute; reflexivity).
  rewrite A2. cbn [mbind result_bind].
  change (Dict.set 100 [(10050, 3e-9%float)] (Dict.set 100 [] []))
    with [(100, [(10050, 3e-9%float)])].
  cbn [Dict.keys map fst]. rewrite order_singleton. cbn [sum_signals].
  change (Dict.getitem 100 [(100, [(10050, 3e-9%float)])])
    with (Ok [(10050, 3e-9%float)]).
  cbn [mbind result_bind]. unfold iter. cbn [Dict.keys map fst].
  rewrite order_singleton. vm_compute. reflexivity.
Qed.

(** C2: in the scenario the contacts of receiver 1 at 100 are 1 and 2, the
    weighted number of data points is 2, the aggregated signal of room 10050
    is [5e-9 * 1 / 2 + 1e-9 * 1 / 2 = 3e-9], which is below [THRESHOLD], and
    [identify_location] returns room 0. *)
Theorem example_scenario :
  build_contacts (sequences scenario_data) 1 100 [(0, 1)] [] = Ok [(100, [1; 2])] /\
  count_datapoints 100 [(0, 1)] [(100, [1; 2])] (iter order [(100, [1; 2])]) None 0
    = Ok (Some 1, 2) /\
  aggregate_signals order (sequences scenario_data) 1 100 [(0, 1)]
    = Ok [(10050, (5e-9 * 1 / 2 + 1e-9 * 1 / 2)%float)] /\
  (5e-9 * 1 / 2 + 1e-9 * 1 / 2)%float = 3e-9%float /\
  (3e-9 <? THRESHOLD)%float = true /\
  identify_location order scenario_data 1 100 [(0, 1)]
    = Ok (0, store_location scenario_data 1 100 0).
Proof.
  split; [by vm_compute|].
  split; [unfold iter; cbn [Dict.keys map fst]; rewrite order_singleton; by vm_compute|].
  split; [exact scenario_aggregate|].
  split; [by vm_compute|]. split; [by vm_compute|].
  unfold identify_location, identify_location_at.
  rewrite scenario_aggregate. cbn [mbind result_bind]. unfold iter.
  cbn [Dict.keys map fst]. rewrite order_singleton.
  assert (Hf : find_strongest [(10050, 3e-9%float)] [10050] 0 0
               = Ok (10050, 3e-9%float)) by (vm_compute; reflexivity).
  rewrite Hf. cbn [mbind result_bind].
  assert (Ht : (3e-9 <? THRESHOLD)%float = true) by (vm_compute; reflexivity).
  by rewrite Ht.
Qed.

(** C6, at the failing input: the mobile mote 2 is a contact of receiver 1
    at 100 and has no sequence of its own; [self.sequences[c]] raises
    [KeyError]. *)
Theorem identify_location_missing_contact :
  identify_location order lone_data 1 100 [(0, 1)] = Raise (KeyError 2).
Proof.
  unfold identify_location, identify_location_at, aggregate_signals.
  assert (Hc : build_contacts (sequences lone_data) 1 100 [(0, 1)] []
               = Ok [(100, [1; 2])]) by (vm_compute; reflexivity).
  rewrite Hc. unfold iter. cbn [mbind result_bind Dict.keys map fst].
  rewrite order_singleton.
  assert (Hn : count_datapoints 100 [(0, 1)] [(100, [1; 2])] [100] None 0
               = Ok (Some 1, 2)) by (vm_compute; reflexivity).
  rewrite Hn. cbn [mbind result_bind fmap option_fmap option_map build_data].
  assert (Hw : scan_weight_float 100 100 [(0, 1)] (Some (PyInt 1))
               = Ok (Some (PyFloat 1))) by (vm_compute; reflexivity).
  rewrite Hw. cbn [mbind result_bind].
  change (Dict.getitem 100 [(100, [1; 2])]) with (Ok [1; 2]).
  cbn [mbind result_bind add_contacts].
  assert (H1 : getitem 1 (sequences lone_data) = Ok scenario_seq_1)
    by (vm_compute; reflexivity).
  assert (H2 : getitem 2 (sequences lone_data) = Raise (KeyError 2))
    by (vm_compute; reflexivity).
  assert (R1 : Receiver_sequence.return_nearest_rooms scenario_seq_1 100
               = [(10050, (5e-9%float, -83))]) by (vm_compute; reflexivity).
  rewrite H1, H2. cbn [mbind result_bind]. rewrite R1.
  unfold iter. cbn [Dict.keys map fst]. rewrite !order_singleton.
  assert (A1 : add_rooms [(10050, (5e-9%float, -83))] [10050] (Some (PyFloat 1)) 2 []
               = Ok [(10050, 2.5e-9%float)]) by (vm_compute; reflexivity).
  rewrite A1. reflexivity.
Qed.

(** *** A window without data *)

Lemma build_contacts_no_snapshot seqs i t_ t_w_list s contacts :
  seqs !! i = Some s ->
  (forall t_w, t_w ∈ t_w_list -> Receiver_sequence.sequence s !! (t_ + t_w.1) = None) ->
  build_contacts seqs i t_ t_w_list contacts = Ok contacts.
Proof.
  intros Hi. induction t_w_list as [|t_w rest IH]; intros Hnone; simpl; [done|].
  unfold getitem. rewrite Hi. cbn [mbind result_bind].
  rewrite (Hnone t_w) by apply list_elem_of_here.
  rewrite decide_False by (by intros [? ?]).
  apply IH. intros t_w' H'. apply Hnone. by apply list_elem_of_further.
Qed.

(** When receiver [i] has no snapshot at any [t + offset], no room is
    accumulated, nothing is divided, and the result is room 0. *)
Lemma identify_location_no_snapshot self i t_ t_w_list s :
  sequences self !! i = Some s ->
  (forall t_w, t_w ∈ t_w_list -> Receiver_sequence.sequence s !! (t_ + t_w.1) = None) ->
  identify_location order self i t_ t_w_list = Ok (0, store_location self i t_ 0).
Proof.
  intros Hi Hnone.
  unfold identify_location, identify_location_at, aggregate_signals.
  rewrite (build_contacts_no_snapshot _ _ _ _ _ _ Hi Hnone).
  unfold iter. cbn [mbind result_bind Dict.keys map]. rewrite order_nil.
  cbn [count_datapoints mbind result_bind fmap option_fmap option_map build_data
       Dict.keys map].
  rewrite order_nil. cbn [sum_signals mbind result_bind Dict.keys map].
  rewrite order_nil. reflexivity.
Qed.

(** *** The threshold *)

Lemma room_seq_store self i t_ r j :
  room_seq (store_location self i t_ r) j =
    if decide (j = i) then <[t_ := VInt r]> (room_seq self i) else room_seq self j.
Proof. unfold room_seq. rewrite store_location_lookup. by case_decide. Qed.

Lemma fewer_rooms_assigned s2 s1 j :
  fewer_rooms s2 s1 -> (assigned (room_seq s2 j) <= assigned (room_seq s1 j))%nat.
Proof.
  intros [_ H]. destruct (H j) as [_ Hpt]. unfold assigned.
  rewrite <- !size_dom. apply subseteq_size. intros x.
  rewrite !elem_of_dom. intros [v Hv].
  apply map_lookup_filter_Some in Hv as [Hv Hnz]. exists v.
  apply map_lookup_filter_Some. split; [|done]. by apply Hpt.
Qed.

Lemma identify_location_at_fewer T1 T2 s1 s2 i t_ t_w_list r1 s1' :
  (T1 <=? T2)%float = true ->
  fewer_rooms s2 s1 ->
  identify_location_at order T1 s1 i t_ t_w_list = Ok (r1, s1') ->
  exists r2 s2',
    identify_location_at order T2 s2 i t_ t_w_list = Ok (r2, s2') /\
    fewer_rooms s2' s1'.
Proof.
  intros HT [Hseq Hrel]. unfold identify_location_at. rewrite Hseq.
  destruct (aggregate_signals order (sequences s1) i t_ t_w_list) as [sig|]; [|done].
  cbn [mbind result_bind].
  destruct (find_strongest sig (iter order sig) 0 0) as [[max_id max_signal]|]; [|done].
  cbn [mbind result_bind]. intros [= <- <-].
  eexists _, _. split; [reflexivity|]. split; [by simpl|].
  intros j. rewrite !room_seq_store. destruct (Hrel j) as [Hdom Hpt].
  case_decide as Hj; [subst j|done].
  split; [by rewrite !dom_insert_L, Hdom|].
  intros x v. rewrite !lookup_insert. case_decide as Hx; [|by apply Hpt].
  intros [= <-] Hnz. f_equal.
  destruct (max_signal <? T2)%float eqn:E2; [done|].
  destruct (max_signal <? T1)%float eqn:E1; [|done].
  by rewrite (float_ltb_leb_trans _ _ _ E1 HT) in E2.
Qed.

Lemma identify_all_fewer T1 T2 i t_w_list ts :
  (T1 <=? T2)%float = true ->
  forall s1 s2 s1',
    fewer_rooms s2 s1 ->
    identify_all order T1 s1 i ts t_w_list = Ok s1' ->
    exists s2', identify_all order T2 s2 i ts t_w_list = Ok s2' /\ fewer_rooms s2' s1'.
Proof.
  intros HT. induction ts as [|t_ ts IH]; intros s1 s2 s1' Hrel Hrun; simpl in *.
  - injection Hrun as <-. by exists s2.
  - destruct (identify_location_at order T1 s1 i t_ t_w_list) as [[r1 s1m]|] eqn:E1;
      [|done].
    destruct (identify_location_at_fewer _ _ _ _ _ _ _ _ _ HT Hrel E1)
      as (r2 & s2m & E2 & Hrelm).
    rewrite E2. simpl in *. by apply (IH s1m).
Qed.

(** C8: with a threshold [T2] above [T1], on the same state, range of
    timestamps and kernel, the run with [T2] returns when the run with [T1]
    does and assigns a room other than 0 to no more timestamps, for every
    receiver. *)
Theorem threshold_antitone T1 T2 self i ts t_w_list self1 :
  (T1 <=? T2)%float = true ->
  identify_all order T1 self i ts t_w_list = Ok self1 ->
  exists self2,
    identify_all order T2 self i ts t_w_list = Ok self2 /\
    forall j, (assigned (room_seq self2 j) <= assigned (room_seq self1 j))%nat.
Proof.
  intros HT Hrun.
  destruct (identify_all_fewer T1 T2 i t_w_list ts HT self self self1) as (self2 & H2 & Hrel);
    [|done|].
  - split; [done|]. intros j. split; [done|]. by intros x v Hv _.
  - exists self2. split; [done|]. intros j. by apply fewer_rooms_assigned.
Qed.

End identify_location_facts.

Lemma identify_location_selects_witness :
  exists max_id max_signal,
    strongest [(10050, 3e-9%float)] (AllData.iter (fun l => l) [(10050, 3e-9%float)])
      0 0 max_id max_signal /\
    let r := if (max_signal <? AllData.THRESHOLD)%float then 0 else max_id in
    AllData.identify_location (fun l => l) scenario_data 1 100 [(0, 1)]
      = Ok (r, AllData.store_location scenario_data 1 100 r) /\
    ((forall room v, Dict.get room [(10050, 3e-9%float)] = Some v ->
        (v <? AllData.THRESHOLD)%float = true) -> r = 0) /\
    ([(10050, 3e-9%float)] = @nil (Z * float) -> r = 0).
Proof.
  apply (identify_location_selects (fun l => l) (fun l => Permutation_refl l)
           scenario_data 1 100 [(0, 1)] [(10050, 3e-9%float)]).
  vm_compute. reflexivity.
Defined.

Lemma example_scenario_witness :
  AllData.identify_location (fun l => l) scenario_data 1 100 [(0, 1)]
  = Ok (0, AllData.store_location scenario_data 1 100 0).
Proof.
  apply (example_scenario (fun l => l)). intros l. reflexivity.
Defined.

Lemma identify_location_missing_contact_witness :
  AllData.identify_location (fun l => l) lone_data 1 100 [(0, 1)] = Raise (KeyError 2).
Proof.
  apply (identify_location_missing_contact (fun l => l)). intros l. reflexivity.
Defined.

Lemma threshold_antitone_witness :
  exists self2,
    AllData.identify_all (fun l => l) AllData.THRESHOLD scenario_data 1 [100] [(0, 1)]
      = Ok self2 /\
    forall j,
      (assigned (room_seq self2 j)
       <= assigned (room_seq (AllData.store_location scenario_data 1 100 10050) j))%nat.
Proof.
  apply (threshold_antitone (fun l => l) 1e-9%float AllData.THRESHOLD scenario_data 1
           [100] [(0, 1)]).
  - vm_compute. reflexivity.
  - vm_compute. reflexivity.
Defined.

(** * Further properties *)

(** ** range *)

Lemma elem_of_range lo hi x : x ∈ range lo hi <-> lo <= x < hi.
Proof.
  unfold range. rewrite list_elem_of_In, in_map_iff. split.
  - intros (k & <- & Hk). apply in_seq in Hk. lia.
  - intros Hx. exists (Z.to_nat (x - lo)). split; [lia|]. apply in_seq. lia.
Qed.

(** ** convert_reading_to_rssi on a byte *)

(** For a reading that fits a byte, the value is the byte read as a signed
    8-bit number, minus 45; it lies between -173 and 82. *)
Theorem convert_reading_to_rssi_byte (reading : Z) :
  0 <= reading < 256 ->
  convert_reading_to_rssi reading = (reading + 128) mod 256 - 128 - 45 /\
  -173 <= convert_reading_to_rssi reading <= 82.
Proof.
  intros Hb.
  assert (Hall : forallb (fun x =>
              (convert_reading_to_rssi x =? (x + 128) mod 256 - 128 - 45) &&
              (-173 <=? convert_reading_to_rssi x) && (convert_reading_to_rssi x <=? 82))
            (range 0 256) = true) by (vm_compute; reflexivity).
  rewrite forallb_forall in Hall.
  specialize (Hall reading). rewrite <- list_elem_of_In, elem_of_range in Hall.
  specialize (Hall Hb). apply andb_prop in Hall as [Hall H3].
  apply andb_prop in Hall as [H1 H2]. lia.
Qed.

Lemma convert_reading_to_rssi_byte_witness :
  convert_reading_to_rssi 200 = (200 + 128) mod 256 - 128 - 45 /\
  -173 <= convert_reading_to_rssi 200 <= 82.
Proof. apply (convert_reading_to_rssi_byte 200). lia. Defined.

(** ** smooth_location and the smoothing loop *)

Section smoothing_more.

Import AllData.

Implicit Types (seq : gmap Z value) (p : list bool).

(** A call returns 1, or returns 0 and leaves the state as it was. *)
Lemma smooth_location_result self i t_ patterns c self' :
  smooth_location self i t_ patterns = Ok (c, self') ->
  (c = 0 /\ self' = self) \/ c = 1.
Proof.
  induction patterns as [|p rest IH]; simpl; intros H.
  - injection H as <- <-. by left.
  - destruct (walk (locations self) i t_ p 0 VNone VNone) as [[r1|]|e]; simpl in H;
      [|by apply IH|done].
    destruct (rewrite_rooms (locations self) i t_ p 0 r1); simpl in H; [|done].
    injection H as <- <-. by right.
Qed.

Lemma smooth_pass_count i patterns ts :
  forall data cnt cnt' data',
    smooth_pass data i ts patterns cnt = Ok (cnt', data') ->
    cnt <= cnt' /\
    (cnt' = cnt ->
     data' = data /\
     forall t_, t_ ∈ ts -> smooth_location data i t_ patterns = Ok (0, data)).
Proof.
  induction ts as [|t_ ts IH]; intros data cnt cnt' data' H; simpl in H.
  - injection H as <- <-. split; [lia|]. intros _. split; [done|].
    intros x Hx. by apply elem_of_nil in Hx.
  - destruct (smooth_location data i t_ patterns) as [[c data1]|e] eqn:E; [|done].
    simpl in H. destruct (IH _ _ _ _ H) as [Hle Hsame].
    destruct (smooth_location_result _ _ _ _ _ _ E) as [[-> ->]| ->].
    + split; [lia|]. intros Hc. destruct Hsame as [-> Hall]; [lia|]. split; [done|].
      intros x Hx. apply elem_of_cons in Hx as [->|Hx]; [done | by apply Hall].
    + split; [lia|]. intros Hc. lia.
Qed.

(** The state that the smoothing loop ends with is a fixed point: a further
    pass counts no pattern and changes nothing, and no pattern matches at any
    timestamp of the range. *)
Theorem smooth_loop_fixed_point fuel data i ts patterns data' :
  smooth_loop fuel data i ts patterns = Some (Ok data') ->
  smooth_pass data' i ts patterns 0 = Ok (0, data') /\
  forall t_, t_ ∈ ts -> smooth_location data' i t_ patterns = Ok (0, data').
Proof.
  revert data. induction fuel as [|fuel IH]; intros data H; [done|].
  cbn [smooth_loop] in H.
  destruct (smooth_pass data i ts patterns 0) as [[cnt d]|e] eqn:E; [|done].
  destruct (Z.ltb_spec 0 cnt) as [Hpos|Hzero]; [by apply (IH d)|].
  injection H as <-.
  destruct (smooth_pass_count _ _ _ _ _ _ _ E) as [Hle Hsame].
  assert (cnt = 0) as -> by lia.
  destruct Hsame as [-> Hall]; [done|]. done.
Qed.

End smoothing_more.

Lemma smooth_loop_fixed_point_witness :
  smooth_pass
    {| AllData.sequences := ∅;
       AllData.locations := {[1 := <[601 := VInt 5]> flicker_seq]} |}
    1 main_range main_patterns 0
  = Ok (0, {| AllData.sequences := ∅;
              AllData.locations := {[1 := <[601 := VInt 5]> flicker_seq]} |}).
Proof.
  refine (proj1 (smooth_loop_fixed_point 3 flicker_data 1 main_range main_patterns
                   {| AllData.sequences := ∅;
                      AllData.locations := {[1 := <[601 := VInt 5]> flicker_seq]} |} _)).
  vm_compute. reflexivity.
Defined.

Section smoothing_rooms.

Import AllData.

Implicit Types (seq : gmap Z value) (p : list bool).

(** The first position labelled [True] of a pattern that has one. *)
Lemma first_true p :
  true ∈ p ->
  exists k : nat, p !! k = Some true /\ forall j : nat, (j < k)%nat -> p !! j = Some false.
Proof.
  induction p as [|[|] p IH]; intros Hin.
  - by apply elem_of_nil in Hin.
  - exists 0%nat. split; [done|]. intros j Hj. lia.
  - apply elem_of_cons in Hin as [?|Hin]; [done|].
    destruct (IH Hin) as (k & Hk & Hbefore). exists (S k). split; [done|].
    intros [|j] Hj; [done|]. apply Hbefore. lia.
Qed.

(** Room 1 of a completed walk over room ids is a room of the window. *)
Lemma walk_room_from_window locs i t_ p r1 seq :
  locs !! i = Some seq ->
  rooms_only seq ->
  true ∈ p ->
  walk locs i t_ p 0 VNone VNone = Ok (Some r1) ->
  r1 <> VNone /\
  exists k : nat, (k < length p)%nat /\ seq !! (t_ + Z.of_nat k) = Some r1.
Proof.
  intros Hi Hro Hin Hw. destruct (first_true p Hin) as (k & Hk & Hbefore).
  pose proof (lookup_lt_Some _ _ _ Hk) as Hlen.
  destruct (walk_present _ _ _ _ _ _ _ _ _ k Hi Hw Hlen) as [v Hv].
  pose proof (Hro _ _ Hv) as Hne. destruct v as [|z]; [done|].
  assert (r1 = VInt z) as ->.
  { eapply (walk_first_true _ _ _ _ 0 _ _ _ k); eauto. }
  split; [done|]. exists k. split; [done|]. rewrite <- Hv. f_equal. lia.
Qed.

(** With patterns that each have a [True], smoothing a sequence of room ids
    gives a sequence of room ids in which every room was already a room of
    the sequence: no room is made up, and [None] is never stored. *)
Theorem smooth_location_no_new_room self i t_ patterns c self' seq :
  locations self !! i = Some seq ->
  rooms_only seq ->
  (forall p, p ∈ patterns -> true ∈ p) ->
  smooth_location self i t_ patterns = Ok (c, self') ->
  exists seq',
    locations self' !! i = Some seq' /\
    rooms_only seq' /\
    forall x v, seq' !! x = Some v -> exists y, seq !! y = Some v.
Proof.
  intros Hi Hro Hpat Hs.
  destruct (smooth_location_cases self i t_ patterns seq Hi)
    as [H0|(p & r1 & Hp & Hw & H1)].
  - rewrite H0 in Hs. injection Hs as <- <-. exists seq. by eauto.
  - rewrite H1 in Hs. injection Hs as <- <-. simpl.
    destruct (walk_room_from_window _ _ _ _ _ _ Hi Hro (Hpat p Hp) Hw)
      as (Hne & k & Hk & Hroom).
    exists (rewrite_seq seq t_ p 0 r1). rewrite lookup_insert_eq.
    split; [done|]. split; [by apply rewrite_seq_rooms_only|].
    intros x v Hx.
    destruct (false_position_cases p t_ x) as [(j & Hj & ->)|Hout].
    + replace (t_ + Z.of_nat j) with (t_ + 0 + Z.of_nat j) in Hx by lia.
      rewrite rewrite_seq_false in Hx by done. injection Hx as <-. by eauto.
    + rewrite rewrite_seq_other in Hx; [by eauto|].
      intros j Hj. replace (t_ + 0 + Z.of_nat j) with (t_ + Z.of_nat j) by lia.
      by apply Hout.
Qed.

(** A pattern that begins with [True], matched over room ids, leaves the
    room found at [t] at every position of its window. *)
Theorem smooth_location_collapse self i t_ pre p post r1 seq :
  locations self !! i = Some seq ->
  rooms_only seq ->
  head p = Some true ->
  (forall q, q ∈ pre -> walk (locations self) i t_ q 0 VNone VNone = Ok None) ->
  walk (locations self) i t_ p 0 VNone VNone = Ok (Some r1) ->
  exists self' seq',
    smooth_location self i t_ (pre ++ p :: post) = Ok (1, self') /\
    locations self' !! i = Some seq' /\
    seq !! t_ = Some r1 /\
    forall k : nat, (k < length p)%nat -> seq' !! (t_ + Z.of_nat k) = Some r1.
Proof.
  intros Hi Hro Hhead Hpre Hw.
  destruct (walk_rooms _ _ _ _ _ _ Hi Hro Hhead Hw) as [Hr1 Hpos].
  exists {| sequences := sequences self;
            locations := <[i := rewrite_seq seq t_ p 0 r1]> (locations self) |},
         (rewrite_seq seq t_ p 0 r1).
  split; [|split; [|split]]; simpl.
  - rewrite smooth_location_skip by done. by apply smooth_location_match.
  - by rewrite lookup_insert_eq.
  - destruct p as [|b p']; [done|]. injection Hhead as ->.
    destruct (Hpos 0%nat true eq_refl) as (room & Hl & ->).
    rewrite <- Hl. f_equal. lia.
  - intros k Hk. destruct (lookup_lt_is_Some_2 p k Hk) as [b Hb].
    replace (t_ + Z.of_nat k) with (t_ + 0 + Z.of_nat k) by lia.
    destruct b.
    + apply rewrite_seq_keep. destruct (Hpos k true Hb) as (room & Hl & ->).
      rewrite <- Hl. f_equal. lia.
    + by apply rewrite_seq_false.
Qed.

(** One pass with bracketed patterns over room ids returns, and it counts at
    most as many corrections as it removes alternations. *)
Theorem smooth_pass_bound data i ts patterns seq :
  locations data !! i = Some seq ->
  rooms_only seq ->
  Forall bracketed patterns ->
  exists cnt data' seq',
    smooth_pass data i ts patterns 0 = Ok (cnt, data') /\
    locations data' !! i = Some seq' /\
    rooms_only seq' /\
    0 <= cnt /\
    Z.of_nat (alternations seq') + cnt <= Z.of_nat (alternations seq).
Proof.
  intros Hi Hro Hpat.
  destruct (smooth_pass_alternations i patterns ts Hpat data 0 seq Hi Hro)
    as (cnt & data' & seq' & Hpass & Hi' & Hro' & Hle).
  exists cnt, data', seq'. split; [done|]. split; [done|]. split; [done|].
  destruct (smooth_pass_count _ _ _ _ _ _ _ Hpass) as [Hge _]. lia.
Qed.

End smoothing_rooms.

Lemma flicker_seq_rooms_only : rooms_only flicker_seq.
Proof. apply (bool_decide_unpack _). vm_compute. reflexivity. Defined.

Lemma main_patterns_true : forall p, p ∈ main_patterns -> true ∈ p.
Proof.
  intros p Hp. apply elem_of_cons in Hp as [->|Hp]; [by left|].
  apply list_elem_of_singleton in Hp as ->. by left.
Defined.

Lemma smooth_location_no_new_room_witness :
  exists seq',
    AllData.locations
      {| AllData.sequences := ∅;
         AllData.locations := {[1 := <[601 := VInt 5]> flicker_seq]} |} !! 1 = Some seq' /\
    rooms_only seq' /\
    forall x v, seq' !! x = Some v -> exists y, flicker_seq !! y = Some v.
Proof.
  refine (smooth_location_no_new_room flicker_data 1 600 main_patterns 1 _ flicker_seq
            _ flicker_seq_rooms_only main_patterns_true _).
  - reflexivity.
  - vm_compute. reflexivity.
Defined.

Lemma smooth_location_collapse_witness :
  exists self' seq',
    AllData.smooth_location flicker_data 1 600 ([] ++ [true; false; true; true] :: [])
      = Ok (1, self') /\
    AllData.locations self' !! 1 = Some seq' /\
    flicker_seq !! 600 = Some (VInt 5) /\
    forall k : nat, (k < length [true; false; true; true])%nat ->
                    seq' !! (600 + Z.of_nat k) = Some (VInt 5).
Proof.
  refine (smooth_location_collapse flicker_data 1 600 [] [true; false; true; true] []
            (VInt 5) flicker_seq _ flicker_seq_rooms_only _ _ _).
  - reflexivity.
  - reflexivity.
  - intros q Hq. by apply elem_of_nil in Hq.
  - vm_compute. reflexivity.
Defined.

Lemma smooth_pass_bound_witness :
  exists cnt data' seq',
    smooth_pass flicker_data 1 main_range main_patterns 0 = Ok (cnt, data') /\
    AllData.locations data' !! 1 = Some seq' /\
    rooms_only seq' /\
    0 <= cnt /\
    Z.of_nat (alternations seq') + cnt <= Z.of_nat (alternations flicker_seq).
Proof.
  refine (smooth_pass_bound flicker_data 1 main_range main_patterns flicker_seq
            _ flicker_seq_rooms_only _).
  - reflexivity.
  - repeat constructor.
Defined.

(** ** Dictionaries *)

Lemma Dict_get_set_eq {V : Type} (d : Dict.t V) k v :
  Dict.get k (Dict.set k v d) = Some v.
Proof.
  induction d as [|[k' v'] d IH]; simpl.
  - by rewrite Z.eqb_refl.
  - destruct (Z.eqb_spec k k') as [->|Hne]; simpl.
    + by rewrite Z.eqb_refl.
    + by destruct (Z.eqb_spec k k').
Qed.

Lemma Dict_get_set_ne {V : Type} (d : Dict.t V) k k' v :
  k <> k' -> Dict.get k' (Dict.set k v d) = Dict.get k' d.
Proof.
  intros Hne. induction d as [|[k0 v0] d IH]; simpl.
  - by destruct (Z.eqb_spec k' k) as [->|_].
  - destruct (Z.eqb_spec k k0) as [->|Hne0]; simpl.
    + by destruct (Z.eqb_spec k' k0) as [->|_].
    + destruct (Z.eqb_spec k' k0); [done | apply IH].
Qed.

Lemma Dict_keys_set {V : Type} (d : Dict.t V) k v k' :
  k' ∈ Dict.keys (Dict.set k v d) <-> k' = k \/ k' ∈ Dict.keys d.
Proof.
  rewrite !Dict_get_keys. destruct (decide (k = k')) as [->|Hne].
  - rewrite Dict_get_set_eq. split; [by left | by eauto].
  - rewrite Dict_get_set_ne by done. split; [by right | intros [?|?]; congruence || done].
Qed.

Lemma Dict_getitem_Ok {V : Type} (d : Dict.t V) k :
  k ∈ Dict.keys d -> exists v, Dict.getitem k d = Ok v /\ Dict.get k d = Some v.
Proof.
  rewrite Dict_get_keys. intros [v Hv]. exists v. unfold Dict.getitem. by rewrite Hv.
Qed.

(** Setting a key keeps the order of the keys: a new key goes last, a key
    that is there keeps its place. *)
Lemma Dict_keys_set_order {V : Type} (d : Dict.t V) k v :
  Dict.keys (Dict.set k v d) =
    if Dict.mem k d then Dict.keys d else Dict.keys d ++ [k].
Proof.
  unfold Dict.mem, Dict.keys. induction d as [|[k' v'] d IH]; simpl; [done|].
  destruct (Z.eqb_spec k k') as [->|Hne]; simpl; [done|].
  rewrite IH. by destruct (Dict.get k d).
Qed.

(** ** identify_location: what it reads and what it raises *)

Lemma AllData_eq (a b : AllData.t) :
  AllData.sequences a = AllData.sequences b ->
  AllData.locations a = AllData.locations b ->
  a = b.
Proof. destruct a, b. simpl. by intros -> ->. Qed.

Lemma store_location_twice self i t_ r :
  AllData.store_location (AllData.store_location self i t_ r) i t_ r
  = AllData.store_location self i t_ r.
Proof.
  apply AllData_eq; [done|]. apply map_eq. intros j.
  rewrite !store_location_lookup. case_decide; [|done].
  rewrite decide_True by done. simpl. by rewrite insert_insert_eq.
Qed.

Section identify_location_reads.

Import AllData.
Variable order : list Z -> list Z.

(** The room that [identify_location] returns depends on the observation
    stores only: on any state with the same sequences the call returns the
    same room, and it leaves the sequences as they are. *)
Theorem identify_location_reads_sequences s1 s2 i t_ t_w_list r s1' :
  sequences s2 = sequences s1 ->
  identify_location order s1 i t_ t_w_list = Ok (r, s1') ->
  sequences s1' = sequences s1 /\
  identify_location order s2 i t_ t_w_list = Ok (r, store_location s2 i t_ r).
Proof.
  intros Hseq H. unfold identify_location, identify_location_at in *.
  rewrite Hseq.
  destruct (aggregate_signals order (sequences s1) i t_ t_w_list) as [sig|]; [|done].
  cbn [mbind result_bind] in *.
  destruct (find_strongest sig (iter order sig) 0 0) as [[max_id max_signal]|]; [|done].
  cbn [mbind result_bind] in *. by injection H as <- <-.
Qed.

(** Repeating a call that returned returns the same room and changes
    nothing. *)
Theorem identify_location_idempotent self i t_ t_w_list r self' :
  identify_location order self i t_ t_w_list = Ok (r, self') ->
  identify_location order self' i t_ t_w_list = Ok (r, self').
Proof.
  intros H. unfold identify_location, identify_location_at in *.
  destruct (aggregate_signals order (sequences self) i t_ t_w_list) as [sig|] eqn:E;
    [|done].
  cbn [mbind result_bind] in *.
  destruct (find_strongest sig (iter order sig) 0 0) as [[max_id max_signal]|] eqn:F;
    [|done].
  cbn [mbind result_bind] in *. injection H as <- <-.
  change (sequences (store_location self i t_
            (if (max_signal <? THRESHOLD)%float then 0 else max_id)))
    with (sequences self).
  rewrite E. cbn [mbind result_bind]. rewrite F. cbn [mbind result_bind].
  by rewrite store_location_twice.
Qed.

End identify_location_reads.

Lemma identify_location_reads_sequences_witness :
  AllData.sequences (AllData.store_location scenario_data 1 100 0)
    = AllData.sequences scenario_data /\
  AllData.identify_location (fun l => l)
    {| AllData.sequences := AllData.sequences scenario_data; AllData.locations := ∅ |}
    1 100 [(0, 1)]
  = Ok (0, AllData.store_location
             {| AllData.sequences := AllData.sequences scenario_data;
                AllData.locations := ∅ |} 1 100 0).
Proof.
  refine (identify_location_reads_sequences (fun l => l) scenario_data
            {| AllData.sequences := AllData.sequences scenario_data;
               AllData.locations := ∅ |} 1 100 [(0, 1)] 0 _ _ _).
  - reflexivity.
  - vm_compute. reflexivity.
Defined.

Lemma identify_location_idempotent_witness :
  AllData.identify_location (fun l => l) (AllData.store_location scenario_data 1 100 0)
    1 100 [(0, 1)]
  = Ok (0, AllData.store_location scenario_data 1 100 0).
Proof.
  refine (identify_location_idempotent (fun l => l) scenario_data 1 100 [(0, 1)] 0 _ _).
  vm_compute. reflexivity.
Defined.

Section identify_location_stages.

Import AllData.
Variable order : list Z -> list Z.
Hypothesis order_perm : forall l, order l ≡ₚ l.

Implicit Types (seqs : gmap Z Receiver_sequence.t) (k : list (Z * Z)).

Lemma build_contacts_raise seqs i t_ k cs e :
  build_contacts seqs i t_ k cs = Raise e -> e = KeyError i /\ seqs !! i = None.
Proof.
  revert cs. induction k as [|t_w k IH]; intros cs; simpl; [done|].
  unfold getitem. destruct (seqs !! i) as [s|]; cbn [mbind result_bind].
  - case_decide; apply IH.
  - by intros [= <-].
Qed.

Lemma build_contacts_entries seqs i t_ k0 k cs cs' :
  (forall t_w, t_w ∈ k -> t_w ∈ k0) ->
  build_contacts seqs i t_ k cs = Ok cs' ->
  (forall x l, Dict.get x cs = Some l -> contact_entry seqs i t_ k0 x l) ->
  forall x l, Dict.get x cs' = Some l -> contact_entry seqs i t_ k0 x l.
Proof.
  revert cs. induction k as [|t_w k IH]; intros cs Hsub; simpl.
  - by intros [= <-].
  - unfold getitem. destruct (seqs !! i) as [s|] eqn:Hi; cbn [mbind result_bind]; [|done].
    assert (Hsub' : forall t_w', t_w' ∈ k -> t_w' ∈ k0)
      by (intros t_w' H'; apply Hsub; by right).
    case_decide as Hsnap; intros Hb Hcs; apply (IH _ Hsub' Hb); [|done].
    intros x l. destruct (decide (t_ + t_w.1 = x)) as [<-|Hne].
    + rewrite Dict_get_set_eq. intros [= <-]. exists t_w, s.
      split; [apply Hsub; by left|]. done.
    + rewrite Dict_get_set_ne by done. apply Hcs.
Qed.

Lemma scan_weight_Some t_ x k weight :
  is_Some weight \/ (exists t_w, t_w ∈ k /\ x - t_w.1 = t_) ->
  is_Some (scan_weight t_ x k weight).
Proof.
  revert weight. induction k as [|t_w k IH]; intros weight H; simpl.
  - destruct H as [?|(? & Hin & _)]; [done | by apply elem_of_nil in Hin].
  - apply IH. destruct (Z.eqb_spec (x - t_w.1) t_) as [Heq|Hne]; [left; by eauto|].
    destruct H as [?|(t_w' & Hin & Hm)]; [by left|]. right.
    apply elem_of_cons in Hin as [->|Hin]; [done | by eauto].
Qed.

Lemma count_datapoints_Ok t_ k contacts t_curs weight w :
  (forall x, x ∈ t_curs ->
     x ∈ Dict.keys contacts /\ exists t_w, t_w ∈ k /\ x - t_w.1 = t_) ->
  exists res, count_datapoints t_ k contacts t_curs weight w = Ok res.
Proof.
  revert weight w. induction t_curs as [|x rest IH]; intros weight w Hall; simpl.
  - by eauto.
  - destruct (Hall x) as [Hkey Hm]; [by left|].
    destruct (Dict_getitem_Ok _ _ Hkey) as (c & -> & _). cbn [mbind result_bind].
    destruct (scan_weight_Some t_ x k weight (or_intror Hm)) as [wt ->].
    cbn [load mbind result_bind]. apply IH. intros x' Hx'. apply Hall. by right.
Qed.

Lemma scan_weight_float_raise t_ x k weight e :
  scan_weight_float t_ x k weight = Raise e -> e = OverflowError.
Proof.
  revert weight. induction k as [|t_w k IH]; intros weight; simpl; [done|].
  destruct (x - t_w.1 =? t_); [|apply IH].
  unfold py_float.
  destruct (is_infinity _); cbn [mbind result_bind]; [by intros [= <-] | apply IH].
Qed.

Lemma scan_weight_float_Ok t_ x k weight weight' :
  (exists f, weight = Some (PyFloat f)) \/ (exists t_w, t_w ∈ k /\ x - t_w.1 = t_) ->
  scan_weight_float t_ x k weight = Ok weight' ->
  exists f, weight' = Some (PyFloat f).
Proof.
  revert weight. induction k as [|t_w k IH]; intros weight H; simpl.
  - intros [= <-]. destruct H as [?|(? & Hin & _)]; [done | by apply elem_of_nil in Hin].
  - destruct (Z.eqb_spec (x - t_w.1) t_) as [Heq|Hne].
    + destruct (py_float t_w.2) as [f|]; cbn [mbind result_bind]; [|done].
      apply IH. left. by eauto.
    + apply IH. destruct H as [?|(t_w' & Hin & Hm)]; [by left|]. right.
      apply elem_of_cons in Hin as [->|Hin]; [done | by eauto].
Qed.

Lemma weighted_power_raise p f w e :
  weighted_power p (Some (PyFloat f)) w = Raise e ->
  e = OverflowError \/ e = ZeroDivisionError.
Proof.
  unfold weighted_power, float_div, py_float. cbn [load float_mul_num mbind result_bind].
  destruct (is_infinity _); cbn [mbind result_bind]; [intros [= <-]; by left|].
  destruct (_ =? _)%float; [intros [= <-]; by right | done].
Qed.

Lemma add_rooms_raise rooms rs f w cell e :
  (forall r, r ∈ rs -> r ∈ Dict.keys rooms) ->
  add_rooms rooms rs (Some (PyFloat f)) w cell = Raise e ->
  e = OverflowError \/ e = ZeroDivisionError.
Proof.
  revert cell. induction rs as [|r rs IH]; intros cell Hin; simpl; [done|].
  destruct (Dict_getitem_Ok rooms r) as (pr & Hpr & _); [apply Hin; by left|].
  assert (Hrest : forall r', r' ∈ rs -> r' ∈ Dict.keys rooms)
    by (intros r' H'; apply Hin; by right).
  unfold Dict.mem. destruct (Dict.get r cell) as [old|] eqn:Hold.
  - assert (Hg : Dict.getitem r cell = Ok old)
      by (unfold Dict.getitem; by rewrite Hold).
    rewrite Hg, Hpr. cbn [mbind result_bind].
    destruct (weighted_power pr.1 (Some (PyFloat f)) w) as [x|e'] eqn:E;
      cbn [mbind result_bind]; [by apply IH|].
    intros [= <-]. by eapply weighted_power_raise.
  - rewrite Hpr. cbn [mbind result_bind].
    destruct (weighted_power pr.1 (Some (PyFloat f)) w) as [x|e'] eqn:E;
      cbn [mbind result_bind]; [by apply IH|].
    intros [= <-]. by eapply weighted_power_raise.
Qed.

Lemma add_rooms_keys rooms rs weight w cell cell' :
  add_rooms rooms rs weight w cell = Ok cell' ->
  forall r, r ∈ Dict.keys cell' -> r ∈ Dict.keys cell \/ r ∈ rs.
Proof.
  revert cell. induction rs as [|r0 rs IH]; intros cell; simpl.
  - intros [= <-] r Hr. by left.
  - assert (Hstep : forall x, add_rooms rooms rs weight w (Dict.set r0 x cell) = Ok cell' ->
              forall r, r ∈ Dict.keys cell' -> r ∈ Dict.keys cell \/ r ∈ r0 :: rs).
    { intros x Hx r Hr. destruct (IH _ Hx r Hr) as [Hk|Hk].
      - apply Dict_keys_set in Hk as [->|Hk]; [right; by left | by left].
      - right. by right. }
    destruct (Dict.mem r0 cell).
    + destruct (Dict.getitem r0 cell); cbn [mbind result_bind]; [|done].
      destruct (Dict.getitem r0 rooms); cbn [mbind result_bind]; [|done].
      destruct (weighted_power _ _ _); cbn [mbind result_bind]; [|done]. apply Hstep.
    + destruct (Dict.getitem r0 rooms); cbn [mbind result_bind]; [|done].
      destruct (weighted_power _ _ _); cbn [mbind result_bind]; [|done]. apply Hstep.
Qed.

(** The rooms of a snapshot are the senders of its stationary signals. *)
Lemma nearest_rooms_keys snap r :
  r ∈ Dict.keys (Signals.return_nearest_rooms snap) ->
  exists sta, sta ∈ Signals.stationary snap /\ sta_sender_id sta = r.
Proof.
  unfold Signals.return_nearest_rooms.
  assert (H : forall l (d : Dict.t (float * Z)),
             r ∈ Dict.keys (fold_left (fun rooms r0 =>
                   Dict.set (sta_sender_id r0) (sta_power r0, sta_rssi r0) rooms) l d) ->
             r ∈ Dict.keys d \/ exists sta, sta ∈ l /\ sta_sender_id sta = r).
  { induction l as [|a l IH]; intros d Hr; simpl in Hr; [by left|].
    destruct (IH _ Hr) as [Hk|(sta & Hin & Heq)].
    - apply Dict_keys_set in Hk as [->|Hk]; [|by left]. right. exists a. split; [by left|done].
    - right. exists sta. split; [by right | done]. }
  intros Hr. destruct (H _ _ Hr) as [Hk|?]; [|done]. by apply elem_of_nil in Hk.
Qed.

Lemma receiver_rooms_keys sc x r :
  r ∈ Dict.keys (Receiver_sequence.return_nearest_rooms sc x) ->
  exists snap sta,
    Receiver_sequence.sequence sc !! x = Some snap /\
    sta ∈ Signals.stationary snap /\ sta_sender_id sta = r.
Proof.
  unfold Receiver_sequence.return_nearest_rooms.
  destruct (Receiver_sequence.sequence sc !! x) as [snap|].
  - intros Hr. destruct (nearest_rooms_keys _ _ Hr) as (sta & ? & ?). by eauto.
  - intros Hr. by apply elem_of_nil in Hr.
Qed.

Lemma add_contacts_raise seqs t_cur cs f w cell e :
  add_contacts order seqs t_cur cs (Some (PyFloat f)) w cell = Raise e ->
  expected_exn seqs e.
Proof.
  revert cell. induction cs as [|c cs IH]; intros cell; simpl; [done|].
  unfold getitem. destruct (seqs !! c) as [sc|] eqn:Hc; cbn [mbind result_bind].
  - destruct (add_rooms _ _ _ _ _) as [cell'|e'] eqn:E; cbn [mbind result_bind];
      [apply IH|].
    intros [= <-]. apply add_rooms_raise in E as [->| ->]; [done | done |].
    intros r Hr. apply iter_get in Hr; [|done]. by apply Dict_get_keys.
  - by intros [= <-].
Qed.

Lemma add_contacts_keys seqs t_cur cs weight w cell cell' :
  add_contacts order seqs t_cur cs weight w cell = Ok cell' ->
  forall r, r ∈ Dict.keys cell' ->
    r ∈ Dict.keys cell \/
    exists c sc, c ∈ cs /\ seqs !! c = Some sc /\
                 r ∈ Dict.keys (Receiver_sequence.return_nearest_rooms sc t_cur).
Proof.
  revert cell. induction cs as [|c cs IH]; intros cell; simpl.
  - intros [= <-] r Hr. by left.
  - unfold getitem. destruct (seqs !! c) as [sc|] eqn:Hc; cbn [mbind result_bind]; [|done].
    destruct (add_rooms _ _ _ _ _) as [cell1|] eqn:E; cbn [mbind result_bind]; [|done].
    intros H r Hr. destruct (IH _ H r Hr) as [Hk|(c' & sc' & Hin & Hc' & Hk)].
    + destruct (add_rooms_keys _ _ _ _ _ _ E r Hk) as [?|Hk']; [by left|].
      right. exists c, sc. split; [by left|]. split; [done|].
      apply iter_get in Hk'; [|done]. by apply Dict_get_keys.
    + right. exists c', sc'. split; [by right | done].
Qed.

Lemma Dict_getitem_inv {V : Type} (d : Dict.t V) x v :
  Dict.getitem x d = Ok v -> Dict.get x d = Some v.
Proof. unfold Dict.getitem. destruct (Dict.get x d); [by intros [= ->] | done]. Qed.

Lemma build_data_raise seqs t_ k contacts w t_curs weight data e :
  (forall x, x ∈ t_curs ->
     x ∈ Dict.keys contacts /\ exists t_w, t_w ∈ k /\ x - t_w.1 = t_) ->
  build_data order seqs t_ k contacts w t_curs weight data = Raise e ->
  expected_exn seqs e.
Proof.
  revert weight data. induction t_curs as [|x rest IH]; intros weight data Hall; simpl;
    [done|].
  destruct (Hall x) as [Hkey Hm]; [by left|].
  assert (Hrest : forall x', x' ∈ rest ->
            x' ∈ Dict.keys contacts /\ exists t_w, t_w ∈ k /\ x' - t_w.1 = t_)
    by (intros x' H'; apply Hall; by right).
  destruct (scan_weight_float t_ x k weight) as [weight'|e'] eqn:E;
    cbn [mbind result_bind].
  - destruct (scan_weight_float_Ok _ _ _ _ _ (or_intror Hm) E) as [f ->].
    destruct (Dict_getitem_Ok _ _ Hkey) as (cs & -> & _). cbn [mbind result_bind].
    destruct (add_contacts order seqs x cs (Some (PyFloat f)) w []) as [cell|e'] eqn:A;
      cbn [mbind result_bind]; [by apply IH|].
    intros [= <-]. by eapply add_contacts_raise.
  - intros [= <-]. by rewrite (scan_weight_float_raise _ _ _ _ _ E).
Qed.

Lemma build_data_cells seqs t_ k contacts w t_curs weight data data' :
  let R x (cell : Dict.t float) :=
    forall r, r ∈ Dict.keys cell ->
      exists l c sc, Dict.get x contacts = Some l /\ c ∈ l /\ seqs !! c = Some sc /\
                     r ∈ Dict.keys (Receiver_sequence.return_nearest_rooms sc x) in
  build_data order seqs t_ k contacts w t_curs weight data = Ok data' ->
  (forall x cell, Dict.get x data = Some cell -> R x cell) ->
  forall x cell, Dict.get x data' = Some cell -> R x cell.
Proof.
  intros R. revert weight data.
  induction t_curs as [|x0 rest IH]; intros weight data; simpl.
  - by intros [= <-].
  - destruct (scan_weight_float t_ x0 k weight) as [weight'|]; cbn [mbind result_bind];
      [|done].
    destruct (Dict.getitem x0 contacts) as [cs|] eqn:G; cbn [mbind result_bind]; [|done].
    apply Dict_getitem_inv in G.
    destruct (add_contacts order seqs x0 cs weight' w []) as [cell0|] eqn:A;
      cbn [mbind result_bind]; [|done].
    intros Hb Hdata. apply (IH _ _ Hb). intros x cell.
    destruct (decide (x0 = x)) as [<-|Hne].
    + rewrite Dict_get_set_eq. intros [= <-] r Hr.
      destruct (add_contacts_keys _ _ _ _ _ _ _ A r Hr) as [Hk|(c & sc & ? & ? & ?)].
      * by apply elem_of_nil in Hk.
      * exists cs, c, sc. done.
    + rewrite !Dict_get_set_ne by done. apply Hdata.
Qed.

Lemma sum_cell_Ok cell rs signals :
  (forall r, r ∈ rs -> r ∈ Dict.keys cell) ->
  exists signals',
    sum_cell cell rs signals = Ok signals' /\
    forall r, r ∈ Dict.keys signals' -> r ∈ Dict.keys signals \/ r ∈ rs.
Proof.
  revert signals. induction rs as [|r0 rs IH]; intros signals Hin; simpl.
  - exists signals. split; [done|]. intros r Hr. by left.
  - destruct (Dict_getitem_Ok cell r0) as (x & Hx & _); [apply Hin; by left|].
    set (signals1 := if Dict.mem r0 signals then signals else Dict.set r0 0%float signals).
    assert (Hkey1 : r0 ∈ Dict.keys signals1).
    { subst signals1. unfold Dict.mem. destruct (Dict.get r0 signals) eqn:G.
      - apply Dict_get_keys. by eauto.
      - apply Dict_keys_set. by left. }
    destruct (Dict_getitem_Ok _ _ Hkey1) as (s0 & Hs0 & _).
    rewrite Hs0, Hx. cbn [mbind result_bind].
    destruct (IH (Dict.set r0 (s0 + x)%float signals1)) as (signals' & Hsum & Hkeys);
      [intros r' H'; apply Hin; by right|].
    exists signals'. split; [done|]. intros r Hr.
    destruct (Hkeys r Hr) as [Hk|Hk]; [|right; by right].
    apply Dict_keys_set in Hk as [->|Hk]; [right; by left|].
    subst signals1. destruct (Dict.mem r0 signals); [by left|].
    apply Dict_keys_set in Hk as [->|Hk]; [right; by left | by left].
Qed.

Lemma sum_signals_Ok data t_curs signals :
  (forall x, x ∈ t_curs -> x ∈ Dict.keys data) ->
  exists signals',
    sum_signals order data t_curs signals = Ok signals' /\
    forall r, r ∈ Dict.keys signals' ->
      r ∈ Dict.keys signals \/
      exists x cell, Dict.get x data = Some cell /\ r ∈ Dict.keys cell.
Proof.
  revert signals. induction t_curs as [|x0 rest IH]; intros signals Hin; simpl.
  - exists signals. split; [done|]. intros r Hr. by left.
  - destruct (Dict_getitem_Ok data x0) as (cell & Hcell & Hget); [apply Hin; by left|].
    rewrite Hcell. cbn [mbind result_bind].
    destruct (sum_cell_Ok cell (iter order cell) signals) as (signals1 & Hs1 & Hk1).
    { intros r Hr. apply iter_get in Hr; [|done]. by apply Dict_get_keys. }
    rewrite Hs1. cbn [mbind result_bind].
    destruct (IH signals1) as (signals' & Hsum & Hkeys);
      [intros x' H'; apply Hin; by right|].
    exists signals'. split; [done|]. intros r Hr.
    destruct (Hkeys r Hr) as [Hk|?]; [|by right].
    destruct (Hk1 r Hk) as [?|Hk']; [by left|]. right. exists x0, cell. split; [done|].
    apply iter_get in Hk'; [|done]. by apply Dict_get_keys.
Qed.

Lemma contacts_window seqs i t_ k contacts :
  build_contacts seqs i t_ k [] = Ok contacts ->
  (forall x l, Dict.get x contacts = Some l -> contact_entry seqs i t_ k x l) /\
  (forall x, x ∈ iter order contacts ->
     x ∈ Dict.keys contacts /\ exists t_w, t_w ∈ k /\ x - t_w.1 = t_).
Proof.
  intros Hb.
  assert (He : forall x l, Dict.get x contacts = Some l -> contact_entry seqs i t_ k x l).
  { apply (build_contacts_entries seqs i t_ k k [] contacts); [done | done |].
    intros x l Hx. done. }
  split; [done|]. intros x Hx. apply iter_get in Hx as [l Hl]; [|done].
  split; [apply Dict_get_keys; by eauto|].
  destruct (He x l Hl) as (t_w & si & Hin & -> & _). exists t_w. split; [done | lia].
Qed.

Lemma aggregate_signals_raise seqs i t_ k e :
  aggregate_signals order seqs i t_ k = Raise e -> expected_exn seqs e.
Proof.
  unfold aggregate_signals.
  destruct (build_contacts seqs i t_ k []) as [contacts|e'] eqn:B;
    cbn [mbind result_bind].
  - destruct (contacts_window _ _ _ _ _ B) as [_ Hkeys].
    destruct (count_datapoints_Ok t_ k contacts (iter order contacts) None 0 Hkeys)
      as [[weight w] ->].
    cbn [mbind result_bind].
    destruct (build_data order seqs t_ k contacts w (iter order contacts)
                (PyInt <$> weight) []) as [data|e'] eqn:D; cbn [mbind result_bind].
    + destruct (sum_signals_Ok data (iter order data) []) as (signals & -> & _); [|done].
      intros x Hx. apply iter_get in Hx; [|done]. by apply Dict_get_keys.
    + intros [= <-]. by eapply build_data_raise.
  - intros [= <-]. by destruct (build_contacts_raise _ _ _ _ _ _ B) as [-> ?].
Qed.

Lemma aggregate_signals_seen seqs i t_ k signals :
  aggregate_signals order seqs i t_ k = Ok signals ->
  forall r, r ∈ Dict.keys signals -> seen seqs i t_ k r.
Proof.
  unfold aggregate_signals.
  destruct (build_contacts seqs i t_ k []) as [contacts|] eqn:B;
    cbn [mbind result_bind]; [|done].
  destruct (contacts_window _ _ _ _ _ B) as [Hentries _].
  destruct (count_datapoints _ _ _ _ _ _) as [[weight w]|]; cbn [mbind result_bind];
    [|done].
  destruct (build_data order seqs t_ k contacts w (iter order contacts)
              (PyInt <$> weight) []) as [data|] eqn:D; cbn [mbind result_bind]; [|done].
  destruct (sum_signals_Ok data (iter order data) []) as (signals' & Hs & Hkeys).
  { intros x Hx. apply iter_get in Hx; [|done]. by apply Dict_get_keys. }
  rewrite Hs. intros [= <-] r Hr.
  destruct (Hkeys r Hr) as [Hk|(x & cell & Hcell & Hk)]; [by apply elem_of_nil in Hk|].
  destruct (build_data_cells _ _ _ _ _ _ _ _ _ D (fun x cell H => ltac:(done))
              x cell Hcell r Hk) as (l & c & sc & Hl & Hc & Hsc & Hrooms).
  destruct (receiver_rooms_keys _ _ _ Hrooms) as (snap & sta & Hsnap & Hsta & Hid).
  exists x, l, c, sc, snap, sta. split; [by apply Hentries|]. done.
Qed.

(** [identify_location] raises nothing but a [KeyError] for a mote that has
    no sequence, an [OverflowError] or a [ZeroDivisionError]: the local
    variable [weight] is always bound where it is read, and the lookups in
    its own dictionaries never fail. *)
Theorem identify_location_exceptions self i t_ k e :
  identify_location order self i t_ k = Raise e ->
  expected_exn (sequences self) e.
Proof.
  unfold identify_location, identify_location_at.
  destruct (aggregate_signals order (sequences self) i t_ k) as [sig|e'] eqn:A;
    cbn [mbind result_bind].
  - destruct (find_strongest_spec sig (iter order sig)
                (fun r => proj1 (iter_get order order_perm sig r)) 0 0%float)
      as (max_id & max_signal & -> & _).
    done.
  - intros [= <-]. by eapply aggregate_signals_raise.
Qed.

(** A room other than 0 that [identify_location] returns is the sender of a
    stationary signal received, at a timestamp of the window, by the
    receiver or by one of its contacts at that timestamp. *)
Theorem identify_location_room_seen self i t_ k r self' :
  identify_location order self i t_ k = Ok (r, self') ->
  r <> 0 ->
  seen (sequences self) i t_ k r.
Proof.
  unfold identify_location, identify_location_at.
  destruct (aggregate_signals order (sequences self) i t_ k) as [sig|] eqn:A;
    cbn [mbind result_bind]; [|done].
  destruct (find_strongest_spec sig (iter order sig)
              (fun r => proj1 (iter_get order order_perm sig r)) 0 0%float)
    as (max_id & max_signal & -> & Hs).
  cbn [mbind result_bind]. intros [= <- <-] Hr.
  destruct (max_signal <? THRESHOLD)%float; [done|].
  destruct Hs as [(-> & _)|(pre & post & _ & Hget & _)]; [done|].
  apply (aggregate_signals_seen _ _ _ _ _ A). apply Dict_get_keys. by eauto.
Qed.

(** A receiver without sequence: with a kernel that is not empty the call
    raises [KeyError] for it; with an empty kernel nothing is looked up and
    room 0 is stored. *)
Theorem identify_location_unknown_receiver self i t_ k :
  sequences self !! i = None ->
  identify_location order self i t_ k =
    match k with
    | [] => Ok (0, store_location self i t_ 0)
    | _ :: _ => Raise (KeyError i)
    end.
Proof.
  intros Hi. unfold identify_location, identify_location_at, aggregate_signals.
  destruct k as [|t_w k].
  - cbn [build_contacts mbind result_bind]. unfold iter.
    cbn [Dict.keys map]. rewrite (order_nil order order_perm).
    cbn [count_datapoints mbind result_bind fmap option_fmap option_map build_data
         Dict.keys map].
    rewrite (order_nil order order_perm). cbn [sum_signals mbind result_bind Dict.keys map].
    rewrite (order_nil order order_perm). reflexivity.
  - cbn [build_contacts]. unfold getitem. rewrite Hi. reflexivity.
Qed.

End identify_location_stages.

Lemma identify_location_exceptions_witness :
  expected_exn (AllData.sequences lone_data) (KeyError 2).
Proof.
  refine (identify_location_exceptions (fun l => l) (fun l => Permutation_refl l)
            lone_data 1 100 [(0, 1)] (KeyError 2) _).
  vm_compute. reflexivity.
Defined.

Lemma identify_location_room_seen_witness :
  seen (AllData.sequences near_data) 3 100 main_kernel 10050.
Proof.
  refine (identify_location_room_seen (fun l => l) (fun l => Permutation_refl l)
            near_data 3 100 main_kernel 10050
            (AllData.store_location near_data 3 100 10050) _ _).
  - vm_compute. reflexivity.
  - lia.
Defined.

Lemma identify_location_unknown_receiver_witness :
  AllData.identify_location (fun l => l) near_data 4 100 main_kernel
  = Raise (KeyError 4).
Proof.
  refine (identify_location_unknown_receiver (fun l => l) (fun l => Permutation_refl l)
            near_data 4 100 main_kernel _).
  reflexivity.
Defined.


(** ** The two loops of the main program, one after the other *)

Section main_phases.

Import AllData.
Variable order : list Z -> list Z.

Lemma identify_all_rooms threshold i k ts :
  forall self self1 seq,
    identify_all order threshold self i ts k = Ok self1 ->
    locations self !! i = Some seq ->
    rooms_only seq ->
    exists seq1,
      locations self1 !! i = Some seq1 /\
      rooms_only seq1 /\
      (forall x, is_Some (seq !! x) -> is_Some (seq1 !! x)) /\
      (forall x, x ∈ ts -> exists r, seq1 !! x = Some (VInt r)).
Proof.
  induction ts as [|t_ ts IH]; intros self self1 seq Hrun Hi Hro; simpl in Hrun.
  - injection Hrun as <-. exists seq. split; [done|]. split; [done|]. split; [done|].
    intros x Hx. by apply elem_of_nil in Hx.
  - destruct (identify_location_at order threshold self i t_ k) as [[r selfm]|] eqn:E;
      [|done].
    simpl in Hrun. apply identify_location_at_store in E as ->.
    destruct (IH (store_location self i t_ r) self1 (<[t_ := VInt r]> seq) Hrun)
      as (seq1 & Hi1 & Hro1 & Hkeep & Hts).
    { rewrite store_location_lookup, decide_True by done. by rewrite Hi. }
    { by apply map_Forall_insert_2. }
    exists seq1. split; [done|]. split; [done|]. split.
    + intros x Hx. apply Hkeep. rewrite lookup_insert. by case_decide.
    + intros x Hx. apply elem_of_cons in Hx as [->|Hx]; [|by apply Hts].
      destruct (Hkeep t_) as [v Hv]; [by rewrite lookup_insert_eq|].
      pose proof (Hro1 _ _ Hv) as Hne. destruct v as [|z]; [done | by eauto].
Qed.

(** After the first loop of the main program the room sequence of the
    receiver holds a room id at every timestamp of the range, and the
    smoothing loop that follows, with bracketed patterns, ends. *)
Theorem main_phases self i ts k self1 seq ts' patterns :
  locations self !! i = Some seq ->
  rooms_only seq ->
  identify_all order THRESHOLD self i ts k = Ok self1 ->
  Forall bracketed patterns ->
  exists seq1 self2,
    locations self1 !! i = Some seq1 /\
    (forall x, x ∈ ts -> exists r, seq1 !! x = Some (VInt r)) /\
    smooth_loop (S (alternations seq1)) self1 i ts' patterns = Some (Ok self2).
Proof.
  intros Hi Hro Hrun Hpat.
  destruct (identify_all_rooms _ _ _ _ _ _ _ Hrun Hi Hro) as (seq1 & Hi1 & Hro1 & _ & Hts).
  destruct (smooth_loop_fuel i patterns ts' Hpat (alternations seq1) self1 seq1 Hi1 Hro1)
    as [self2 H2]; [done|].
  by exists seq1, self2.
Qed.

End main_phases.

Lemma main_phases_witness :
  exists seq1 self2,
    AllData.locations (AllData.store_location near_data 3 100 10050) !! 3 = Some seq1 /\
    (forall x, x ∈ [100] -> exists r, seq1 !! x = Some (VInt r)) /\
    smooth_loop (S (alternations seq1)) (AllData.store_location near_data 3 100 10050)
      3 main_range main_patterns = Some (Ok self2).
Proof.
  refine (main_phases (fun l => l) near_data 3 [100] main_kernel
            (AllData.store_location near_data 3 100 10050) ∅ main_range main_patterns
            _ _ _ _).
  - reflexivity.
  - apply map_Forall_empty.
  - vm_compute. reflexivity.
  - repeat constructor.
Defined.

(** ** write_to_files *)

Section write_to_files_facts.

Import AllData.

Implicit Types (seq : gmap Z value).

Lemma StronglySorted_le_lt (l : list Z) :
  StronglySorted Z.le l -> NoDup l -> StronglySorted Z.lt l.
Proof.
  induction 1 as [|x l Hs IH Hall]; intros Hnd; [constructor|].
  apply NoDup_cons in Hnd as [Hx Hnd]. constructor; [by apply IH|].
  rewrite Forall_forall in *. intros y Hy. specialize (Hall y Hy).
  assert (x <> y) by (intros ->; done). lia.
Qed.

Lemma StronglySorted_lt_NoDup (l : list Z) : StronglySorted Z.lt l -> NoDup l.
Proof.
  induction 1 as [|x l Hs IH Hall]; [constructor|].
  apply NoDup_cons. split; [|done]. intros Hx.
  rewrite Forall_forall in Hall. specialize (Hall x Hx). lia.
Qed.

(** [sorted(d.keys())] is the list of the keys in increasing order. *)
Lemma sorted_keys_spec seq :
  StronglySorted Z.lt (sorted_keys seq) /\
  forall t_, t_ ∈ sorted_keys seq <-> is_Some (seq !! t_).
Proof.
  unfold sorted_keys. split.
  - apply StronglySorted_le_lt; [apply StronglySorted_merge_sort; apply _|].
    rewrite merge_sort_Permutation. apply NoDup_elements.
  - intros t_. by rewrite merge_sort_Permutation, elem_of_elements, elem_of_dom.
Qed.

Lemma written_record_fst seq t_ tr : written_record seq t_ = Some tr -> tr.1 = t_.
Proof.
  unfold written_record. destruct (seq !! t_) as [[|z]|]; [done| |done].
  case_decide; [done|]. by intros [= <-].
Qed.

Lemma written_records_elem seq ts x :
  x ∈ (omap (written_record seq) ts).*1 -> x ∈ ts.
Proof.
  rewrite list_elem_of_fmap. intros (tr & -> & Htr).
  apply list_elem_of_omap in Htr as (t_ & Ht & Hrec).
  by rewrite (written_record_fst _ _ _ Hrec).
Qed.

Lemma written_records_sorted seq ts :
  StronglySorted Z.lt ts -> StronglySorted Z.lt (omap (written_record seq) ts).*1.
Proof.
  induction 1 as [|t_ ts Hs IH Hall]; [constructor|]. simpl.
  destruct (written_record seq t_) as [tr|] eqn:E; [|done].
  simpl. constructor; [done|]. rewrite (written_record_fst _ _ _ E).
  rewrite Forall_forall in *. intros x Hx. apply Hall. by eapply written_records_elem.
Qed.

Lemma write_timeline_rooms seq ts output :
  (forall t_, t_ ∈ ts -> exists z, seq !! t_ = Some (VInt z)) ->
  write_timeline seq ts output =
    (output ++ ((fun tr : Z * Z => format_line tr.1 tr.2) <$> omap (written_record seq) ts),
     None).
Proof.
  revert output. induction ts as [|t_ ts IH]; intros output Hall; simpl.
  - by rewrite app_nil_r.
  - destruct (Hall t_) as [z Hz]; [by left|].
    assert (Hrest : forall t', t' ∈ ts -> exists z, seq !! t' = Some (VInt z))
      by (intros t' H'; apply Hall; by right).
    unfold written_record at 1. rewrite Hz.
    destruct (decide (VInt z = VInt 0)) as [[= ->]|Hne].
    + rewrite decide_True by done. by apply IH.
    + rewrite decide_False by congruence. rewrite IH by done. simpl.
      by rewrite <- app_assoc.
Qed.

(** For a room sequence of room ids, the lines written to the file of a
    receiver are those of the timestamps with a room other than 0, one line
    each, in increasing order of the timestamps, and no exception ends the
    loop. *)
Theorem write_timeline_spec seq :
  rooms_only seq ->
  exists records : list (Z * Z),
    write_timeline seq (sorted_keys seq) []
      = ((fun tr : Z * Z => format_line tr.1 tr.2) <$> records, None) /\
    StronglySorted Z.lt records.*1 /\
    (forall t_ z, (t_, z) ∈ records <-> seq !! t_ = Some (VInt z) /\ z <> 0) /\
    length records = assigned seq.
Proof.
  intros Hro. destruct (sorted_keys_spec seq) as [Hsorted Hkeys].
  exists (omap (written_record seq) (sorted_keys seq)).
  assert (Hmem : forall t_ z, (t_, z) ∈ omap (written_record seq) (sorted_keys seq)
                   <-> seq !! t_ = Some (VInt z) /\ z <> 0).
  { intros t_ z. rewrite list_elem_of_omap. split.
    - intros (x & Hx & Hrec). pose proof (written_record_fst _ _ _ Hrec) as Hfst.
      simpl in Hfst. subst x. unfold written_record in Hrec.
      destruct (seq !! t_) as [[|z']|]; [done| |done].
      case_decide; [done|]. by injection Hrec as ->.
    - intros [Hz Hne]. exists t_. split; [apply Hkeys; by eauto|].
      unfold written_record. rewrite Hz. by rewrite decide_False. }
  split; [|split; [by apply written_records_sorted | split; [done|]]].
  - rewrite write_timeline_rooms; [done|]. intros t_ Ht. apply Hkeys in Ht as [v Hv].
    pose proof (Hro _ _ Hv). destruct v as [|z]; [done | by eauto].
  - unfold assigned. rewrite <- size_dom. unfold size, set_size. simpl.
    rewrite <- (length_fmap fst). apply Permutation_length, NoDup_Permutation.
    + apply StronglySorted_lt_NoDup. by apply written_records_sorted.
    + apply NoDup_elements.
    + intros t_. rewrite elem_of_elements, elem_of_dom, list_elem_of_fmap. split.
      * intros ([t' z] & -> & Hin). apply Hmem in Hin as [Hz Hne]. exists (VInt z).
        apply map_lookup_filter_Some. split; [done|]. simpl. congruence.
      * intros [v Hv]. apply map_lookup_filter_Some in Hv as [Hv Hnz]. simpl in Hnz.
        pose proof (Hro _ _ Hv). destruct v as [|z]; [done|].
        exists (t_, z). split; [done|]. apply Hmem. split; [done | congruence].
Qed.

(** When the sequence holds [None] at some timestamp, the loop ends with
    the [TypeError] of the string formatting. *)
Lemma write_timeline_none_aux seq ts output :
  (forall t_, t_ ∈ ts -> is_Some (seq !! t_)) ->
  (exists t_, t_ ∈ ts /\ seq !! t_ = Some VNone) ->
  exists output', write_timeline seq ts output = (output', Some TypeError).
Proof.
  revert output. induction ts as [|t0 ts IH]; intros output Hkeys (t_ & Hin & Hnone).
  - by apply elem_of_nil in Hin.
  - simpl. destruct (Hkeys t0) as [v Hv]; [by left|]. rewrite Hv.
    destruct v as [|z]; [rewrite decide_False by done; by eauto|].
    assert (Hrest : exists t', t' ∈ ts /\ seq !! t' = Some VNone).
    { apply elem_of_cons in Hin as [->|Hin]; [congruence | by eauto]. }
    case_decide; apply IH; try done; intros t' H'; apply Hkeys; by right.
Qed.

Theorem write_timeline_TypeError seq t_ :
  seq !! t_ = Some VNone ->
  exists output, write_timeline seq (sorted_keys seq) [] = (output, Some TypeError).
Proof.
  intros Hnone. destruct (sorted_keys_spec seq) as [_ Hkeys].
  apply write_timeline_none_aux.
  - intros t' Ht'. by apply Hkeys.
  - exists t_. split; [apply Hkeys; by eauto | done].
Qed.



End write_to_files_facts.

Lemma write_timeline_spec_witness :
  exists records : list (Z * Z),
    AllData.write_timeline flicker_seq (AllData.sorted_keys flicker_seq) []
      = ((fun tr : Z * Z => format_line tr.1 tr.2) <$> records, None) /\
    StronglySorted Z.lt records.*1 /\
    (forall t_ z, (t_, z) ∈ records <-> flicker_seq !! t_ = Some (VInt z) /\ z <> 0) /\
    length records = assigned flicker_seq.
Proof. exact (write_timeline_spec flicker_seq flicker_seq_rooms_only). Defined.

Lemma write_timeline_TypeError_witness :
  exists output,
    AllData.write_timeline {[600 := VInt 5; 601 := VNone]}
      (AllData.sorted_keys {[600 := VInt 5; 601 := VNone]}) []
    = (output, Some TypeError).
Proof.
  refine (write_timeline_TypeError {[600 := VInt 5; 601 := VNone]} 601 _). reflexivity.
Defined.


(** ** read_person_to_person_file *)

Section reader_facts.

Variable convert_rssi_to_power : Z -> result float.
Variable order : list Z -> list Z.
Hypothesis order_perm : forall l, order l ≡ₚ l.
Variable receiver_id : Z.

Abbreviation snapshot := (snapshot_of convert_rssi_to_power receiver_id).
Abbreviation stations := (stationary_of convert_rssi_to_power receiver_id).

Lemma filter_none {A : Type} (P : A -> Prop) `{!forall x, Decision (P x)} (l : list A) :
  (forall x, x ∈ l -> ~ P x) -> filter P l = [].
Proof.
  induction l as [|a l IH]; intros Hall; [done|].
  rewrite filter_cons_False by (apply Hall; by left). apply IH.
  intros x Hx. apply Hall. by right.
Qed.

Lemma no_line_no_signal (lines : list line) t_ :
  ~ Exists (fun l => cur_t l = t_) lines ->
  mobile_of receiver_id lines t_ = [] /\ stations lines t_ = [].
Proof.
  intros Hno. unfold mobile_of, stationary_of.
  assert (H1 : filter (fun l => cur_t l = t_ /\ cur_id l < 10000) lines = []).
  { apply filter_none. intros l Hl [Ht _]. apply Hno. apply Exists_exists. by eauto. }
  assert (H2 : filter (fun l => cur_t l = t_ /\ 10000 <= cur_id l) lines = []).
  { apply filter_none. intros l Hl [Ht _]. apply Hno. apply Exists_exists. by eauto. }
  by rewrite H1, H2.
Qed.

Lemma snapshot_of_other (lines : list line) l t_ :
  cur_t l <> t_ -> snapshot (lines ++ [l]) t_ = snapshot lines t_.
Proof.
  intros Hne. unfold snapshot_of, mobile_of, stationary_of.
  rewrite !filter_app, !filter_cons_False, !filter_nil, !app_nil_r by (intros [? _]; done).
  destruct (decide (Exists (fun l0 => cur_t l0 = t_) lines)) as [He|Hn].
  - rewrite decide_True; [done|]. apply Exists_app. by left.
  - rewrite decide_False; [done|]. rewrite Exists_app. intros [?|Hl]; [done|].
    apply Exists_cons in Hl as [?|Hl]; [done|]. by apply Exists_nil in Hl.
Qed.

Lemma snapshot_of_mobile (lines : list line) l :
  cur_id l < 10000 ->
  snapshot (lines ++ [l]) (cur_t l) =
    Some {| Signals.global_time := cur_t l; Signals.receiver_id := receiver_id;
            Signals.mobile :=
              mobile_of receiver_id lines (cur_t l)
              ++ [{| mob_global_time := cur_t l; mob_receiver_id := receiver_id;
                     mob_sender_id := cur_id l |}];
            Signals.stationary := stations lines (cur_t l) |}.
Proof.
  intros Hid. unfold snapshot_of.
  rewrite decide_True by (apply Exists_app; right; by left).
  unfold mobile_of, stationary_of. rewrite !filter_app.
  rewrite (filter_cons_True _ l []) by done.
  rewrite (filter_cons_False (fun l0 => cur_t l0 = cur_t l /\ 10000 <= cur_id l0) l [])
    by (intros [_ ?]; lia).
  rewrite !filter_nil, app_nil_r, fmap_app. done.
Qed.

Lemma snapshot_of_stationary (lines : list line) l power :
  10000 <= cur_id l ->
  convert_rssi_to_power (convert_reading_to_rssi (cur_strength l)) = Ok power ->
  snapshot (lines ++ [l]) (cur_t l) =
    Some {| Signals.global_time := cur_t l; Signals.receiver_id := receiver_id;
            Signals.mobile := mobile_of receiver_id lines (cur_t l);
            Signals.stationary :=
              stations lines (cur_t l)
              ++ [{| sta_global_time := cur_t l; sta_receiver_id := receiver_id;
                     sta_sender_id := cur_id l;
                     sta_rssi := convert_reading_to_rssi (cur_strength l);
                     sta_power := power |}] |}.
Proof.
  intros Hid Hpower. unfold snapshot_of.
  rewrite decide_True by (apply Exists_app; right; by left).
  unfold mobile_of, stationary_of. rewrite !filter_app.
  rewrite (filter_cons_True (fun l0 => cur_t l0 = cur_t l /\ 10000 <= cur_id l0) l [])
    by done.
  rewrite (filter_cons_False (fun l0 => cur_t l0 = cur_t l /\ cur_id l0 < 10000) l [])
    by (intros [_ ?]; lia).
  rewrite !filter_nil, app_nil_r, omap_app. simpl. by rewrite Hpower.
Qed.

(** The snapshot that the loop finds or creates for the timestamp of the
    next line. *)
Lemma read_lines_current (done : list line) T l :
  (forall t_, Dict.get t_ T = snapshot done t_) ->
  let timeline :=
    if Dict.mem (cur_t l) T then T
    else Dict.set (cur_t l)
           {| Signals.global_time := cur_t l; Signals.receiver_id := receiver_id;
              Signals.mobile := []; Signals.stationary := [] |} T in
  Dict.getitem (cur_t l) timeline =
    Ok {| Signals.global_time := cur_t l; Signals.receiver_id := receiver_id;
          Signals.mobile := mobile_of receiver_id done (cur_t l);
          Signals.stationary := stations done (cur_t l) |} /\
  forall t_, t_ <> cur_t l -> Dict.get t_ timeline = Dict.get t_ T.
Proof.
  intros Hinv. unfold Dict.mem. rewrite Hinv. unfold snapshot_of.
  destruct (decide (Exists (fun l0 => cur_t l0 = cur_t l) done)) as [He|Hn]; simpl.
  - split; [|done]. unfold Dict.getitem. rewrite Hinv. unfold snapshot_of.
    by rewrite decide_True.
  - split.
    + unfold Dict.getitem. rewrite Dict_get_set_eq.
      by destruct (no_line_no_signal done (cur_t l) Hn) as [-> ->].
    + intros t_ Hne. by rewrite Dict_get_set_ne.
Qed.

Lemma read_lines_spec (rest : list line) :
  forall (done : list line) T,
    (forall t_, Dict.get t_ T = snapshot done t_) ->
    match read_lines convert_rssi_to_power receiver_id rest T with
    | Done T' => forall t_, Dict.get t_ T' = snapshot (done ++ rest) t_
    | Stop e =>
      exists l e', l ∈ rest /\ 10000 <= cur_id l /\
        convert_rssi_to_power (convert_reading_to_rssi (cur_strength l)) = Raise e' /\
        e = Exn e'
    end.
Proof.
  induction rest as [|l rest IH]; intros done T Hinv.
  - simpl. by rewrite app_nil_r.
  - cbn [read_lines].
    destruct (read_lines_current done T l Hinv) as [Hcur Hother].
    cbv zeta in Hcur, Hother. rewrite Hcur. cbn [lift mbind outcome_bind].
    assert (Hnext : forall snapshot',
              snapshot (done ++ [l]) (cur_t l) = Some snapshot' ->
              match read_lines convert_rssi_to_power receiver_id rest
                      (Dict.set (cur_t l) snapshot'
                         (if Dict.mem (cur_t l) T then T
                          else Dict.set (cur_t l)
                                 {| Signals.global_time := cur_t l;
                                    Signals.receiver_id := receiver_id;
                                    Signals.mobile := []; Signals.stationary := [] |} T))
              with
              | Done T' => forall t_, Dict.get t_ T' = snapshot (done ++ l :: rest) t_
              | Stop e =>
                exists l0 e', l0 ∈ l :: rest /\ 10000 <= cur_id l0 /\
                  convert_rssi_to_power (convert_reading_to_rssi (cur_strength l0))
                    = Raise e' /\ e = Exn e'
              end).
    { intros snapshot' Hsnap.
      specialize (IH (done ++ [l]) (Dict.set (cur_t l) snapshot'
                         (if Dict.mem (cur_t l) T then T
                          else Dict.set (cur_t l)
                                 {| Signals.global_time := cur_t l;
                                    Signals.receiver_id := receiver_id;
                                    Signals.mobile := []; Signals.stationary := [] |} T))).
      destruct (read_lines _ _ rest _) as [T'|e].
      - rewrite <- app_assoc in IH. apply IH. intros t_.
        destruct (decide (t_ = cur_t l)) as [->|Hne].
        + by rewrite Dict_get_set_eq.
        + rewrite Dict_get_set_ne by done. rewrite Hother by done.
          rewrite snapshot_of_other by done. apply Hinv.
      - destruct IH as (l0 & e' & Hin & ? & ? & ?).
        + intros t_. destruct (decide (t_ = cur_t l)) as [->|Hne].
          * by rewrite Dict_get_set_eq.
          * rewrite Dict_get_set_ne by done. rewrite Hother by done.
            rewrite snapshot_of_other by done. apply Hinv.
        + exists l0, e'. split; [by right | done]. }
    destruct (Z.ltb_spec (cur_id l) 10000) as [Hmob|Hsta].
    + cbn [mbind outcome_bind]. unfold Signals.add_signal. simpl.
      rewrite !decide_False by (intros H; by apply H).
      cbn [mbind outcome_bind]. apply Hnext. by apply snapshot_of_mobile.
    + unfold new_Signal_sta.
      destruct (convert_rssi_to_power (convert_reading_to_rssi (cur_strength l)))
        as [power|e'] eqn:Hp; cbn [lift mbind outcome_bind].
      * unfold Signals.add_signal. simpl.
        rewrite !decide_False by (intros H; by apply H).
        cbn [mbind outcome_bind]. apply Hnext. by apply snapshot_of_stationary.
      * exists l, e'. split; [by left | done].
Qed.

Lemma add_all_spec T ts :
  forall seq,
    (forall t_, t_ ∈ ts ->
       exists snap, Dict.get t_ T = Some snap /\
         Signals.receiver_id snap = Receiver_sequence.receiver_id seq /\
         Signals.global_time snap = t_) ->
    exists seq',
      add_all seq T ts = Done seq' /\
      Receiver_sequence.receiver_id seq' = Receiver_sequence.receiver_id seq /\
      forall t_, Receiver_sequence.sequence seq' !! t_ =
                 if decide (t_ ∈ ts) then Dict.get t_ T
                 else Receiver_sequence.sequence seq !! t_.
Proof.
  induction ts as [|t0 ts IH]; intros seq Hall.
  - exists seq. split; [done|]. split; [done|]. intros t_.
    rewrite decide_False; [done|]. intros H. by apply elem_of_nil in H.
  - destruct (Hall t0) as (snap & Hget & Hrid & Htime); [by left|].
    cbn [add_all]. unfold Dict.getitem. rewrite Hget. cbn [lift mbind outcome_bind].
    unfold Receiver_sequence.add_signals.
    rewrite decide_False by (intros H; by apply H). cbn [mbind outcome_bind].
    destruct (IH {| Receiver_sequence.receiver_id := Receiver_sequence.receiver_id seq;
                    Receiver_sequence.sequence :=
                      <[Signals.global_time snap := snap]>
                        (Receiver_sequence.sequence seq) |})
      as (seq' & Hadd & Hrid' & Hlook).
    { intros t_ Ht. apply Hall. by right. }
    exists seq'. split; [done|]. split; [done|]. intros t_. rewrite Hlook. simpl.
    rewrite Htime. destruct (decide (t_ ∈ ts)) as [Hin|Hnin].
    + rewrite decide_True; [done | by right].
    + rewrite lookup_insert. destruct (decide (t0 = t_)) as [->|Hne].
      * rewrite decide_True; [done | by left].
      * rewrite decide_False; [done|]. intros H. apply elem_of_cons in H as [?|?]; done.
Qed.

Lemma reader_outcome (lines : list line) :
  match read_person_to_person_file convert_rssi_to_power order receiver_id lines with
  | Done seq =>
    Receiver_sequence.receiver_id seq = receiver_id /\
    forall t_, Receiver_sequence.sequence seq !! t_ = snapshot lines t_
  | Stop e =>
    exists l e', l ∈ lines /\ 10000 <= cur_id l /\
      convert_rssi_to_power (convert_reading_to_rssi (cur_strength l)) = Raise e' /\
      e = Exn e'
  end.
Proof.
  unfold read_person_to_person_file.
  pose proof (read_lines_spec lines [] []) as Hread.
  destruct (read_lines convert_rssi_to_power receiver_id lines []) as [T|e];
    cbn [mbind outcome_bind]; [|by apply Hread].
  assert (Hinv : forall t_, Dict.get t_ T = snapshot lines t_).
  { apply Hread. intros t_. unfold snapshot_of. rewrite decide_False; [done|].
    intros H. by apply Exists_nil in H. }
  destruct (add_all_spec T (order (Dict.keys T))
              {| Receiver_sequence.receiver_id := receiver_id;
                 Receiver_sequence.sequence := ∅ |})
    as (seq & -> & Hrid & Hlook).
  { intros t_ Ht. rewrite order_perm in Ht. apply Dict_get_keys in Ht as [snap Hsnap].
    exists snap. split; [done|]. rewrite Hinv in Hsnap. unfold snapshot_of in Hsnap.
    case_decide; [|done]. by injection Hsnap as <-. }
  split; [done|]. intros t_. rewrite Hlook, <- Hinv. case_decide as Hin; [done|].
  simpl. rewrite lookup_empty. destruct (Dict.get t_ T) eqn:E; [|done].
  exfalso. apply Hin. rewrite order_perm. apply Dict_get_keys. by eauto.
Qed.

(** The reader stops only when the conversion of a stationary signal to a
    power raises: the checks of [add_signal] and [add_signals] never fail on
    what the reader builds, so it neither exits nor meets the [NameError]. *)
Theorem reader_stops_on_power_only (lines : list line) e :
  read_person_to_person_file convert_rssi_to_power order receiver_id lines = Stop e ->
  exists l e', l ∈ lines /\ 10000 <= cur_id l /\
    convert_rssi_to_power (convert_reading_to_rssi (cur_strength l)) = Raise e' /\
    e = Exn e'.
Proof. intros H. pose proof (reader_outcome lines) as Hr. by rewrite H in Hr. Qed.

(** The sequence that the reader returns has a snapshot at a timestamp
    exactly when a line has this timestamp, with the receiver and the
    timestamp of the snapshot filled in, the mobile motes (ids below 10000)
    and the stationary motes of the lines with this timestamp, each in the
    order of the lines and as often as it occurs. *)
Theorem reader_snapshots (lines : list line) seq :
  read_person_to_person_file convert_rssi_to_power order receiver_id lines = Done seq ->
  Receiver_sequence.receiver_id seq = receiver_id /\
  forall t_, Receiver_sequence.sequence seq !! t_ = snapshot lines t_.
Proof. intros H. pose proof (reader_outcome lines) as Hr. by rewrite H in Hr. Qed.

Lemma neighbor_ids_fmap snap :
  Signals.return_neighbor_ids snap = mob_sender_id <$> Signals.mobile snap.
Proof.
  unfold Signals.return_neighbor_ids.
  assert (H : forall l acc,
             fold_left (fun neighbors n => neighbors ++ [mob_sender_id n]) l acc
             = acc ++ (mob_sender_id <$> l)).
  { induction l as [|a l IH]; intros acc; simpl; [by rewrite app_nil_r|].
    by rewrite IH, <- app_assoc. }
  apply H.
Qed.

(** The neighbours of the receiver at a timestamp are the mobile motes of
    the lines with this timestamp, in the order of the lines: a mote that
    two lines name is there twice. *)
Theorem reader_neighbor_ids (lines : list line) seq t_ :
  read_person_to_person_file convert_rssi_to_power order receiver_id lines = Done seq ->
  Receiver_sequence.return_neighbor_ids seq t_
  = cur_id <$> filter (fun l => cur_t l = t_ /\ cur_id l < 10000) lines.
Proof.
  intros H. pose proof (reader_outcome lines) as Hr. rewrite H in Hr.
  destruct Hr as [_ Hsnap]. unfold Receiver_sequence.return_neighbor_ids.
  rewrite Hsnap. unfold snapshot_of. case_decide as He.
  - rewrite neighbor_ids_fmap. simpl. unfold mobile_of.
    rewrite <- list_fmap_compose. done.
  - by destruct (no_line_no_signal lines t_ He) as [Hm _];
      unfold mobile_of in Hm; apply fmap_nil_inv in Hm as ->.
Qed.

(** A window without a line of the file: after the reader and
    [add_sequence], [identify_location] returns room 0. *)
Theorem reader_then_identify (lines : list line) seq self t_ k :
  read_person_to_person_file convert_rssi_to_power order receiver_id lines = Done seq ->
  (forall t_w l, t_w ∈ k -> l ∈ lines -> cur_t l <> t_ + t_w.1) ->
  AllData.identify_location order (AllData.add_sequence self seq) receiver_id t_ k
  = Ok (0, AllData.store_location (AllData.add_sequence self seq) receiver_id t_ 0).
Proof.
  intros H Hwin. pose proof (reader_outcome lines) as Hr. rewrite H in Hr.
  destruct Hr as [Hrid Hsnap].
  apply (identify_location_no_snapshot order order_perm _ _ _ _ seq).
  - simpl. rewrite Hrid. apply lookup_insert_eq.
  - intros t_w Ht_w. rewrite Hsnap. unfold snapshot_of. rewrite decide_False; [done|].
    intros He. apply Exists_exists in He as (l & Hl & Ht).
    by apply (Hwin t_w l Ht_w Hl).
Qed.

End reader_facts.

(** ** Signals.return_nearest_rooms *)

(** The power and rssi that [return_nearest_rooms] gives for a stationary
    mote are those of the last of its signals in the snapshot. *)
Theorem return_nearest_rooms_last snap r :
  Dict.get r (Signals.return_nearest_rooms snap)
  = (fun s => (sta_power s, sta_rssi s))
      <$> last (filter (fun s => sta_sender_id s = r) (Signals.stationary snap)).
Proof.
  unfold Signals.return_nearest_rooms.
  assert (H : forall l (d : Dict.t (float * Z)),
             Dict.get r (fold_left (fun rooms r0 =>
                 Dict.set (sta_sender_id r0) (sta_power r0, sta_rssi r0) rooms) l d)
             = match last (filter (fun s => sta_sender_id s = r) l) with
               | Some s => Some (sta_power s, sta_rssi s)
               | None => Dict.get r d
               end).
  { induction l as [|a l IH]; intros d; simpl; [done|].
    rewrite IH. destruct (decide (sta_sender_id a = r)) as [Ha|Ha].
    - rewrite filter_cons_True by done. rewrite last_cons.
      destruct (last (filter _ l)); [done|]. rewrite <- Ha. apply Dict_get_set_eq.
    - rewrite filter_cons_False by done.
      destruct (last (filter _ l)); [done|]. by apply Dict_get_set_ne. }
  rewrite H. by destruct (last _).
Qed.

(** ** identify_location: a window without data *)

(** When the receiver has no snapshot at any timestamp of the window, the
    call returns room 0 and stores it: nothing is accumulated and nothing is
    divided. *)
Theorem identify_location_empty_window (order : list Z -> list Z) self i t_ k s :
  (forall l, order l ≡ₚ l) ->
  AllData.sequences self !! i = Some s ->
  (forall t_w, t_w ∈ k -> Receiver_sequence.sequence s !! (t_ + t_w.1) = None) ->
  AllData.identify_location order self i t_ k
  = Ok (0, AllData.store_location self i t_ 0).
Proof. intros Hperm. by apply identify_location_no_snapshot. Qed.

Lemma identify_location_empty_window_witness :
  AllData.identify_location (fun l => l) near_data 3 500 main_kernel
  = Ok (0, AllData.store_location near_data 3 500 0).
Proof.
  refine (identify_location_empty_window (fun l => l) near_data 3 500 main_kernel near_seq
            _ _ _).
  - intros l. reflexivity.
  - reflexivity.
  - intros t_w Ht_w. unfold main_kernel in Ht_w.
    repeat (apply elem_of_cons in Ht_w as [->|Ht_w]; [reflexivity|]).
    by apply elem_of_nil in Ht_w.
Defined.

(** ** Witnesses for the reader *)

Lemma reader_stops_on_power_only_witness :
  exists l e', l ∈ example_lines /\ 10000 <= cur_id l /\
    (fun _ : Z => @Raise float OverflowError) (convert_reading_to_rssi (cur_strength l))
      = Raise e' /\
    Exn OverflowError = Exn e'.
Proof.
  refine (reader_stops_on_power_only (fun _ => Raise OverflowError) (fun l => l) _ 1
            example_lines (Exn OverflowError) _).
  - intros l. reflexivity.
  - vm_compute. reflexivity.
Defined.

Lemma reader_snapshots_witness :
  Receiver_sequence.receiver_id example_seq = 1 /\
  forall t_, Receiver_sequence.sequence example_seq !! t_
             = snapshot_of example_power 1 example_lines t_.
Proof.
  refine (reader_snapshots example_power (fun l => l) _ 1 example_lines example_seq _).
  - intros l. reflexivity.
  - vm_compute. reflexivity.
Defined.

Lemma reader_neighbor_ids_witness :
  Receiver_sequence.return_neighbor_ids example_seq 100
  = cur_id <$> filter (fun l => cur_t l = 100 /\ cur_id l < 10000) example_lines.
Proof.
  refine (reader_neighbor_ids example_power (fun l => l) _ 1 example_lines example_seq
            100 _).
  - intros l. reflexivity.
  - vm_compute. reflexivity.
Defined.

Lemma reader_then_identify_witness :
  AllData.identify_location (fun l => l) (AllData.add_sequence AllData.init example_seq)
    1 500 main_kernel
  = Ok (0, AllData.store_location (AllData.add_sequence AllData.init example_seq)
             1 500 0).
Proof.
  refine (reader_then_identify example_power (fun l => l) _ 1 example_lines example_seq
            AllData.init 500 main_kernel _ _).
  - intros l. reflexivity.
  - vm_compute. reflexivity.
  - assert (H : Forall (fun t_w : Z * Z =>
                  Forall (fun l => cur_t l <> 500 + t_w.1) example_lines) main_kernel).
    { apply (bool_decide_unpack _). vm_compute. reflexivity. }
    intros t_w l Ht_w Hl. rewrite Forall_forall in H. specialize (H t_w Ht_w).
    rewrite Forall_forall in H. by apply H.
Defined.

(** ** identify_location: the weights *)

(** The weight of a timestamp is that of the last entry of the kernel with
    its offset; without such an entry the variable keeps its value. *)
Theorem scan_weight_last t_ x k weight :
  AllData.scan_weight t_ x k weight
  = match last (filter (fun t_w : Z * Z => x - t_w.1 = t_) k) with
    | Some t_w => Some t_w.2
    | None => weight
    end.
Proof.
  revert weight. induction k as [|t_w k IH]; intros weight; simpl; [done|].
  rewrite IH. destruct (Z.eqb_spec (x - t_w.1) t_) as [Heq|Hne].
  - rewrite filter_cons_True by done. rewrite last_cons.
    by destruct (last (filter _ k)).
  - by rewrite filter_cons_False by done.
Qed.

Section datapoints.

Import AllData.
Variable order : list Z -> list Z.
Hypothesis order_perm : forall l, order l ≡ₚ l.

Lemma scan_weight_positive t_ x k weight :
  (forall t_w, t_w ∈ k -> 0 < t_w.2) ->
  (exists w0, weight = Some w0 /\ 0 < w0) \/ (exists t_w, t_w ∈ k /\ x - t_w.1 = t_) ->
  exists wt, scan_weight t_ x k weight = Some wt /\ 0 < wt.
Proof.
  revert weight. induction k as [|t_w k IH]; intros weight Hpos H; simpl.
  - destruct H as [(w0 & -> & ?)|(? & Hin & _)]; [by eauto | by apply elem_of_nil in Hin].
  - apply IH; [intros t_w' H'; apply Hpos; by right|].
    destruct (Z.eqb_spec (x - t_w.1) t_) as [Heq|Hne].
    + left. exists t_w.2. split; [done|]. apply Hpos. by left.
    + destruct H as [?|(t_w' & Hin & Hm)]; [by left|]. right.
      apply elem_of_cons in Hin as [->|Hin]; [done | by eauto].
Qed.

Lemma count_datapoints_ge t_ k contacts ts :
  (forall t_w, t_w ∈ k -> 0 < t_w.2) ->
  (forall x, x ∈ ts ->
     (exists l, Dict.get x contacts = Some l /\ l <> []) /\
     exists t_w, t_w ∈ k /\ x - t_w.1 = t_) ->
  forall weight w,
  exists weight' w',
    count_datapoints t_ k contacts ts weight w = Ok (weight', w') /\
    w + Z.of_nat (length ts) <= w'.
Proof.
  intros Hpos. induction ts as [|x ts IH]; intros Hall weight w; simpl.
  - exists weight, w. split; [done | lia].
  - destruct (Hall x) as [(l & Hl & Hne) Hm]; [by left|].
    destruct (scan_weight_positive t_ x k weight Hpos (or_intror Hm)) as (wt & -> & Hwt).
    unfold Dict.getitem. rewrite Hl. cbn [load mbind result_bind].
    destruct (IH (fun x' H' => Hall x' (list_elem_of_further _ _ _ H')) (Some wt)
                (w + Z.of_nat (length l) * wt)) as (weight' & w' & -> & Hle).
    exists weight', w'. split; [done|].
    assert (1 <= Z.of_nat (length l)) by (destruct l; [done | simpl; lia]). nia.
Qed.

(** With positive weights the weighted number of data points is at least
    the number of timestamps of the window with a snapshot: it is 0 only
    when there is no snapshot at all, and then nothing is divided by it. *)
Theorem datapoints_positive seqs i t_ k contacts :
  build_contacts seqs i t_ k [] = Ok contacts ->
  (forall t_w, t_w ∈ k -> 0 < t_w.2) ->
  exists weight w,
    count_datapoints t_ k contacts (iter order contacts) None 0 = Ok (weight, w) /\
    Z.of_nat (length contacts) <= w /\
    (w = 0 <-> contacts = []).
Proof.
  intros Hb Hpos.
  destruct (contacts_window order order_perm _ _ _ _ _ Hb) as [Hentries Hkeys].
  destruct (count_datapoints_ge t_ k contacts (iter order contacts) Hpos) with
    (weight := @None Z) (w := 0) as (weight & w & Hc & Hle).
  { intros x Hx. destruct (Hkeys x Hx) as [Hkey Hm]. split; [|done].
    apply Dict_get_keys in Hkey as [l Hl]. exists l. split; [done|].
    by destruct (Hentries x l Hl) as (? & ? & _ & _ & _ & _ & ->). }
  assert (Hlen : length (iter order contacts) = length contacts).
  { unfold iter. rewrite order_perm. unfold Dict.keys. apply length_fmap. }
  rewrite Hlen in Hle. exists weight, w. split; [done|]. split; [lia|]. split.
  - intros ->. destruct contacts; [done | simpl in Hle; lia].
  - intros ->. unfold iter in Hc. simpl in Hc.
    rewrite (order_nil order order_perm) in Hc. simpl in Hc. by injection Hc as _ <-.
Qed.

End datapoints.

Lemma datapoints_positive_witness :
  exists weight w,
    AllData.count_datapoints 100 [(0, 1)] [(100, [1; 2])]
      (AllData.iter (fun l => l) [(100, [1; 2])]) None 0 = Ok (weight, w) /\
    Z.of_nat (length [(100, [1; 2])]) <= w /\
    (w = 0 <-> [(100, [1; 2])] = @nil (Z * list Z)).
Proof.
  refine (datapoints_positive (fun l => l) _ (AllData.sequences scenario_data) 1 100
            [(0, 1)] [(100, [1; 2])] _ _).
  - intros l. reflexivity.
  - vm_compute. reflexivity.
  - intros t_w Ht_w. apply list_elem_of_singleton in Ht_w as ->. simpl. lia.
Defined.
